(** * KVStore: a file-backed key-value store with TTLs, quotas and per-key locks

    A shallow embedding of the [KVStore] class (create, read, delete,
    batchCreate, compact, saveData, loadData, initialize) and the properties
    of its index, its size accounting, its lock table and its persistence
    protocol.

    Modelling conventions.
    - JavaScript values that reach the store are JSON values ([JSON]); numbers
      are integers, strings are ASCII text, so that [String.length] is both
      the UTF-16 length tested by [validateKey] and the UTF-8 byte length
      measured by [Buffer.from(..).length].
    - [this.data] is a [gmap string Entry]; [this.lock], a [Map] that only
      ever stores [true], is the [gset string] of its keys.
    - An operation is a function from the state to a completion (normal or
      abrupt) and a new state: a thrown [Error] keeps every mutation made
      before the throw, as in JavaScript.
    - Each operation is run to completion with no other task interleaved.
      The one suspension point that a property below depends on, the file
      write inside [saveData], splits [saveData], [executeSave] and [compact]
      into the part before it and the part after it.  A save started by
      [queueSave] and suspended there is the state of [savePromise]: a
      [create] that finds it awaits it, and the model runs what is left of
      that save at the await.  Nothing in the source ever pushes to
      [saveQueue].
    - The host (clock, files, advisory file lock, failures of [fs] calls,
      [console.error]) is part of the state. *)

From Stdlib Require Import Ascii String ZArith Bool.
From stdpp Require Import gmap strings list fin_maps pretty.

Open Scope Z_scope.

Set Warnings "-register-all,-clear-no-such-hyp".

(** ** JSON values and [JSON.stringify] *)

Inductive JSON : Type :=
| JNull
| JBool (b : bool)
| JNumber (n : Z)
| JString (s : string)
| JArray (items : list JSON)
| JObject (fields : list (string * JSON)).

Definition dquote : ascii := "034"%char.
Definition backslash : ascii := "092"%char.

Definition hexDigit (n : N) : ascii :=
  if (n <? 10)%N then ascii_of_N (48 + n) else ascii_of_N (87 + n).

(** QuoteJSONString, one character at a time. *)
Definition escapeChar (c : ascii) : string :=
  let n := N_of_ascii c in
  if (n =? 34)%N then String backslash (String dquote EmptyString)
  else if (n =? 92)%N then String backslash (String backslash EmptyString)
  else if (n =? 8)%N then String backslash "b"
  else if (n =? 9)%N then String backslash "t"
  else if (n =? 10)%N then String backslash "n"
  else if (n =? 12)%N then String backslash "f"
  else if (n =? 13)%N then String backslash "r"
  else if (n <? 32)%N then
    String backslash
      (String "u" (String "0" (String "0"
         (String (hexDigit (n / 16)) (String (hexDigit (n mod 16)) EmptyString)))))
  else String c EmptyString.

Fixpoint escapeString (s : string) : string :=
  match s with
  | EmptyString => EmptyString
  | String c rest => escapeChar c +:+ escapeString rest
  end.

Definition quoteString (s : string) : string :=
  String dquote (escapeString s +:+ String dquote EmptyString).

Fixpoint joinComma (parts : list string) : string :=
  match parts with
  | [] => EmptyString
  | [p] => p
  | p :: rest => p +:+ "," +:+ joinComma rest
  end.

Fixpoint stringify (v : JSON) : string :=
  match v with
  | JNull => "null"
  | JBool true => "true"
  | JBool false => "false"
  | JNumber n => pretty n
  | JString s => quoteString s
  | JArray items => "[" +:+ joinComma (map stringify items) +:+ "]"
  | JObject fields =>
      "{" +:+ joinComma (map (fun p => quoteString (fst p) +:+ ":" +:+ stringify (snd p)) fields)
          +:+ "}"
  end.

(** [Buffer.from(s).length] *)
Definition byteLength (s : string) : Z := Z.of_nat (String.length s).

(** ** Entries *)

Record Entry : Type := mkEntry { value : JSON; expiry : option Z }.

(** JavaScript truthiness of a number-or-null: [null] and [0] are falsy. *)
Definition truthy (x : option Z) : bool :=
  match x with
  | Some n => negb (n =? 0)
  | None => false
  end.

(** [!item.expiry || item.expiry > now] *)
Definition isLive (now : Z) (item : Entry) : bool :=
  negb (truthy (expiry item)) || (match expiry item with Some t => now <? t | None => false end).

(** [item.expiry && item.expiry <= now] *)
Definition isExpired (now : Z) (item : Entry) : bool :=
  truthy (expiry item) && (match expiry item with Some t => t <=? now | None => false end).

Definition entryJSON (item : Entry) : JSON :=
  JObject [("value"%string, value item);
           ("expiry"%string, match expiry item with Some t => JNumber t | None => JNull end)].

(** [estimateEntrySize(key, value)]: the byte length of
    [JSON.stringify({[key]: {value, expiry: null}})]. *)
Definition estimateEntrySize (key : string) (v : JSON) : Z :=
  byteLength (stringify (JObject [(key, JObject [("value"%string, v); ("expiry"%string, JNull)])])).

(** ** Files *)

(** The content of the backing file: blank (empty or whitespace only), a JSON
    object of entries, or text that [JSON.parse] rejects.  [JSON.parse] of
    what [JSON.stringify] wrote is the object that was written. *)
Inductive FileContent : Type :=
| Blank (size : Z)
| Document (fileData : gmap string Entry)
| Garbled (size : Z).

Definition documentJSON (fileData : gmap string Entry) : JSON :=
  JObject (map (fun p => (fst p, entryJSON (snd p))) (map_to_list fileData)).

(** [stats.size] *)
Definition fileSize (c : FileContent) : Z :=
  match c with
  | Blank n => n
  | Document fileData => byteLength (stringify (documentJSON fileData))
  | Garbled n => n
  end.

Inductive IOCode : Type := EACCES | ENOENT | ELOCKED | EIO.

(** ** Errors

    One constructor per kind of [Error] the store throws; [FsError] is an
    error raised by an [fs] call or by the file lock, with its [code]. *)
Inductive Error : Type :=
| InvalidKey
| ValueTooLarge
| KeyExists
| KeyNotFound (expired : bool)
| QuotaExceeded
| BatchTooLarge
| LockTimeout (key : string)
| StoreBusy
| PermissionDenied
| SyntaxError
| FsError (code : IOCode)
| PersistenceFailed (cause : Error).

(** ** State *)

(** A save started by [queueSave], as another task finds it in
    [savePromise]: suspended in the write of its temporary file, with the
    document and the total that its [saveData] computed before the write, or
    already failed on its size check. *)
Inductive SaveInFlight : Type :=
| Writing (pending : FileContent * Z)
| Rejected (error : Error).

Record World : Type := mkWorld {
  (* fields of the KVStore object *)
  data : gmap string Entry;
  lock : gset string;
  currentSize : Z;
  isDirty : bool;
  saveTimeout : option Z;          (* instant at which the pending timer fires *)
  lockInstance : bool;
  savePromise : option SaveInFlight;   (* the save in flight, if any *)
  maxBatchSize : Z;
  maxFileSize : Z;
  (* host *)
  clock : Z;                       (* Date.now() *)
  file : option FileContent;       (* this.filePath *)
  tmp : option FileContent;        (* this.filePath + ".tmp" *)
  fileLocked : bool;               (* advisory lock on the file *)
  writeFault : option IOCode;      (* what fsp.writeFile raises, if anything *)
  renameFault : option IOCode;     (* what fsp.rename raises *)
  unlinkFault : option IOCode;     (* what fsp.unlink raises *)
  console : list Error             (* console.error *)
}.

Definition maxValueSize : Z := 16 * 1024.
Definition maxKeyLength : nat := 32.
Definition maxAttempts : nat := 100.

Definition set_data (d : gmap string Entry) (w : World) : World :=
  mkWorld d (lock w) (currentSize w) (isDirty w) (saveTimeout w) (lockInstance w)
    (savePromise w) (maxBatchSize w) (maxFileSize w) (clock w) (file w) (tmp w) (fileLocked w)
    (writeFault w) (renameFault w) (unlinkFault w) (console w).
Definition set_lock (l : gset string) (w : World) : World :=
  mkWorld (data w) l (currentSize w) (isDirty w) (saveTimeout w) (lockInstance w)
    (savePromise w) (maxBatchSize w) (maxFileSize w) (clock w) (file w) (tmp w) (fileLocked w)
    (writeFault w) (renameFault w) (unlinkFault w) (console w).
Definition set_currentSize (n : Z) (w : World) : World :=
  mkWorld (data w) (lock w) n (isDirty w) (saveTimeout w) (lockInstance w)
    (savePromise w) (maxBatchSize w) (maxFileSize w) (clock w) (file w) (tmp w) (fileLocked w)
    (writeFault w) (renameFault w) (unlinkFault w) (console w).
Definition set_isDirty (b : bool) (w : World) : World :=
  mkWorld (data w) (lock w) (currentSize w) b (saveTimeout w) (lockInstance w)
    (savePromise w) (maxBatchSize w) (maxFileSize w) (clock w) (file w) (tmp w) (fileLocked w)
    (writeFault w) (renameFault w) (unlinkFault w) (console w).
Definition set_saveTimeout (t : option Z) (w : World) : World :=
  mkWorld (data w) (lock w) (currentSize w) (isDirty w) t (lockInstance w)
    (savePromise w) (maxBatchSize w) (maxFileSize w) (clock w) (file w) (tmp w) (fileLocked w)
    (writeFault w) (renameFault w) (unlinkFault w) (console w).
Definition set_lockInstance (b : bool) (w : World) : World :=
  mkWorld (data w) (lock w) (currentSize w) (isDirty w) (saveTimeout w) b
    (savePromise w) (maxBatchSize w) (maxFileSize w) (clock w) (file w) (tmp w) (fileLocked w)
    (writeFault w) (renameFault w) (unlinkFault w) (console w).
Definition set_savePromise (p : option SaveInFlight) (w : World) : World :=
  mkWorld (data w) (lock w) (currentSize w) (isDirty w) (saveTimeout w) (lockInstance w)
    p (maxBatchSize w) (maxFileSize w) (clock w) (file w) (tmp w) (fileLocked w)
    (writeFault w) (renameFault w) (unlinkFault w) (console w).
Definition set_clock (t : Z) (w : World) : World :=
  mkWorld (data w) (lock w) (currentSize w) (isDirty w) (saveTimeout w) (lockInstance w)
    (savePromise w) (maxBatchSize w) (maxFileSize w) t (file w) (tmp w) (fileLocked w)
    (writeFault w) (renameFault w) (unlinkFault w) (console w).
Definition set_file (f : option FileContent) (w : World) : World :=
  mkWorld (data w) (lock w) (currentSize w) (isDirty w) (saveTimeout w) (lockInstance w)
    (savePromise w) (maxBatchSize w) (maxFileSize w) (clock w) f (tmp w) (fileLocked w)
    (writeFault w) (renameFault w) (unlinkFault w) (console w).
Definition set_tmp (f : option FileContent) (w : World) : World :=
  mkWorld (data w) (lock w) (currentSize w) (isDirty w) (saveTimeout w) (lockInstance w)
    (savePromise w) (maxBatchSize w) (maxFileSize w) (clock w) (file w) f (fileLocked w)
    (writeFault w) (renameFault w) (unlinkFault w) (console w).
Definition set_fileLocked (b : bool) (w : World) : World :=
  mkWorld (data w) (lock w) (currentSize w) (isDirty w) (saveTimeout w) (lockInstance w)
    (savePromise w) (maxBatchSize w) (maxFileSize w) (clock w) (file w) (tmp w) b
    (writeFault w) (renameFault w) (unlinkFault w) (console w).
Definition set_console (l : list Error) (w : World) : World :=
  mkWorld (data w) (lock w) (currentSize w) (isDirty w) (saveTimeout w) (lockInstance w)
    (savePromise w) (maxBatchSize w) (maxFileSize w) (clock w) (file w) (tmp w) (fileLocked w)
    (writeFault w) (renameFault w) (unlinkFault w) l.

(** ** Operations with state and exceptions *)

Inductive Result (A : Type) : Type :=
| Return (a : A)
| Throw (e : Error).
Arguments Return {A} a.
Arguments Throw {A} e.

Definition Op (S A : Type) : Type := S -> Result A * S.

Definition ret {S A} (a : A) : Op S A := fun s => (Return a, s).
Definition throw {S A} (e : Error) : Op S A := fun s => (Throw e, s).
Definition bind {S A B} (m : Op S A) (k : A -> Op S B) : Op S B :=
  fun s => match m s with
           | (Return a, s') => k a s'
           | (Throw e, s') => (Throw e, s')
           end.
Definition gets {S A} (f : S -> A) : Op S A := fun s => (Return (f s), s).
Definition modify {S} (f : S -> S) : Op S unit := fun s => (Return tt, f s).

Notation "x <- m ;; k" := (bind m (fun x => k))
  (at level 100, m at next level, right associativity).
Notation "m ;;; k" := (bind m (fun _ => k))
  (at level 100, right associativity).

(** [try { m } catch (error) { handler error }] *)
Definition try_catch {S A} (m : Op S A) (handler : Error -> Op S A) : Op S A :=
  fun s => match m s with
           | (Return a, s') => (Return a, s')
           | (Throw e, s') => handler e s'
           end.

(** [try { m } finally { fin }]: the completion of [m] stands unless [fin]
    itself throws. *)
Definition try_finally {S A} (m : Op S A) (fin : Op S unit) : Op S A :=
  fun s => match m s with
           | (r, s') => match fin s' with
                        | (Return _, s'') => (r, s'')
                        | (Throw e, s'') => (Throw e, s'')
                        end
           end.

Definition when {S} (b : bool) (m : Op S unit) : Op S unit :=
  if b then m else ret tt.

(** [for (const x of xs) { body x }] *)
Fixpoint for_each {S A} (xs : list A) (body : A -> Op S unit) : Op S unit :=
  match xs with
  | [] => ret tt
  | x :: rest => body x ;;; for_each rest body
  end.

(** Local variables of a function body, next to the shared state. *)
Definition lift {L A} (m : Op World A) : Op (L * World) A :=
  fun s => match m (snd s) with (r, w') => (r, (fst s, w')) end.
Definition local {L} (f : L -> L) : Op (L * World) unit :=
  modify (fun s => (f (fst s), snd s)).
Definition with_locals {L A} (init : L) (m : Op (L * World) A) : Op World A :=
  fun w => match m (init, w) with (r, s') => (r, snd s') end.

(** ** The store *)

Definition data_set (key : string) (item : Entry) (w : World) : World :=
  set_data (<[key := item]> (data w)) w.
Definition data_delete (key : string) (w : World) : World :=
  set_data (delete key (data w)) w.
Definition addCurrentSize (n : Z) (w : World) : World :=
  set_currentSize (currentSize w + n) w.

(** [options.maxBatchSize || 1000] *)
Definition orDefault (x : option Z) (d : Z) : Z :=
  match x with
  | Some n => if truthy x then n else d
  | None => d
  end.

Record Options : Type := mkOptions {
  optMaxBatchSize : option Z;
  optMaxFileSize : option Z
}.

(** [new KVStore(filePath, options)] on a host: fresh fields, same host. *)
Definition KVStore_new (options : Options) (host : World) : World :=
  mkWorld ∅ ∅ 0 false None false None
    (orDefault (optMaxBatchSize options) 1000)
    (orDefault (optMaxFileSize options) (1024 * 1024 * 1024))
    (clock host) (file host) (tmp host) (fileLocked host)
    (writeFault host) (renameFault host) (unlinkFault host) (console host).

Definition validateKey (key : JSON) : Op World string :=
  match key with
  | JString s =>
      if (maxKeyLength <? String.length s)%nat then throw InvalidKey else ret s
  | _ => throw InvalidKey
  end.

Definition validateValue (v : JSON) : Op World unit :=
  let valueSize := byteLength (stringify v) in
  if maxValueSize <? valueSize then throw ValueTooLarge else ret tt.

(** [await new Promise((resolve) => setTimeout(resolve, ms))] with nothing
    else scheduled: time passes. *)
Definition sleep (ms : Z) : Op World unit :=
  modify (fun w => set_clock (clock w + ms) w).

(** The polling loop of [acquireLock]; [remaining] is
    [maxAttempts - attempts]. *)
Fixpoint acquireLock_poll (remaining : nat) (key : string) : Op World unit :=
  held <- gets (fun w => bool_decide (key ∈ lock w)) ;;
  if held then
    match remaining with
    | O => throw (LockTimeout key)
    | S r => sleep 10 ;;; acquireLock_poll r key
    end
  else modify (fun w => set_lock ({[key]} ∪ lock w) w).

Definition acquireLock (key : string) : Op World unit :=
  acquireLock_poll maxAttempts key.

Definition releaseLock (key : string) : Op World unit :=
  modify (fun w => set_lock (lock w ∖ {[key]}) w).

(** [scheduleSave]: mark dirty, restart the one-second timer. *)
Definition scheduleSave : Op World unit :=
  modify (set_isDirty true) ;;;
  modify (fun w => set_saveTimeout (Some (clock w + 1000)) w).

(** [fileData[key] = value] on the plain object [fileData]: assigning to the
    name [__proto__] goes through the accessor inherited from
    [Object.prototype] and creates no own property. *)
Definition assignProperty (key : string) (item : Entry)
    (o : gmap string Entry) : gmap string Entry :=
  if bool_decide (key = "__proto__"%string) then o else <[key := item]> o.

(** The loop of [saveData] over [this.data.entries()]: the object to write
    and the recomputed total. *)
Definition saveData_collect (d : gmap string Entry) : gmap string Entry * Z :=
  map_fold
    (fun key item acc =>
       (assignProperty key item (fst acc),
        snd acc + estimateEntrySize key (value item)))
    (∅, 0) d.

Definition fs_writeFile_tmp (content : FileContent) : Op World unit :=
  fault <- gets writeFault ;;
  match fault with
  | Some code => throw (FsError code)
  | None => modify (set_tmp (Some content))
  end.

Definition fs_writeFile_file (content : FileContent) : Op World unit :=
  fault <- gets writeFault ;;
  match fault with
  | Some code => throw (FsError code)
  | None => modify (set_file (Some content))
  end.

Definition fs_rename_tmp : Op World unit :=
  fault <- gets renameFault ;;
  match fault with
  | Some code => throw (FsError code)
  | None => modify (fun w => set_tmp None (set_file (tmp w) w))
  end.

Definition fs_unlink_tmp : Op World unit :=
  fault <- gets unlinkFault ;;
  match fault with
  | Some code => throw (FsError code)
  | None =>
      t <- gets tmp ;;
      match t with
      | None => throw (FsError ENOENT)
      | Some _ => modify (set_tmp None)
      end
  end.

(** [saveData] up to its first suspension: serialize, recompute, check. *)
Definition saveData_prepare : Op World (FileContent * Z) :=
  d <- gets data ;;
  let fileData := fst (saveData_collect d) in
  let totalSize := snd (saveData_collect d) in
  max <- gets maxFileSize ;;
  if max <? totalSize then throw QuotaExceeded
  else ret (Document fileData, totalSize).

(** The outer [catch] of [saveData]: an error whose [code] is [EACCES] is
    replaced by "Permission denied", any other is rethrown. *)
Definition reportPermission (error : Error) : Error :=
  match error with
  | FsError EACCES => PermissionDenied
  | _ => error
  end.

(** [saveData] from the write of the temporary file on. *)
Definition saveData_commit (pending : FileContent * Z) : Op World unit :=
  try_catch
    (fs_writeFile_tmp (fst pending) ;;;
     try_catch fs_rename_tmp
       (fun renameError =>
          try_catch fs_unlink_tmp (fun _ => ret tt) ;;;
          throw renameError) ;;;
     modify (set_currentSize (snd pending)) ;;;
     modify (set_isDirty false))
    (fun error => throw (reportPermission error)).

Definition saveData : Op World unit :=
  pending <- saveData_prepare ;; saveData_commit pending.

(** [executeSave]: the save, and in its [finally] the reset of
    [savePromise]; [saveQueue] is empty, nothing ever pushes to it. *)
Definition executeSave : Op World unit :=
  try_finally saveData (modify (set_savePromise None)).

(** [executeSave] up to its first suspension, with [savePromise] assigned by
    [queueSave]: in the write of the temporary file, or on the rejection of
    [saveData] by its size check. *)
Definition executeSave_begin : Op World unit :=
  try_catch
    (pending <- saveData_prepare ;;
     modify (set_savePromise (Some (Writing pending))))
    (fun error => modify (set_savePromise (Some (Rejected error)))).

(** What is left of an [executeSave] in flight. *)
Definition executeSave_resume (inFlight : SaveInFlight) : Op World unit :=
  try_finally
    (match inFlight with
     | Writing pending => saveData_commit pending
     | Rejected error => throw error
     end)
    (modify (set_savePromise None)).

(** [queueSave]: [if (!this.savePromise) this.savePromise = this.executeSave()],
    then [await this.savePromise]: a caller that finds a save in flight
    starts none of its own and gets the completion of that one. *)
Definition queueSave : Op World unit :=
  inFlight <- gets savePromise ;;
  try_catch
    (match inFlight with
     | None => executeSave
     | Some started => executeSave_resume started
     end)
    (fun error => throw (PersistenceFailed error)).

(** [ttl ? Date.now() + ttl * 1000 : null] *)
Definition computeExpiry (now : Z) (ttl : option Z) : option Z :=
  match ttl with
  | Some t => if truthy ttl then Some (now + t * 1000) else None
  | None => None
  end.

(** The [try] block of [create] up to its save: the checks and the
    insertion. *)
Definition create_insert (k : string) (v : JSON) (ttl : option Z) (entrySize : Z) :
    Op World unit :=
  cur <- gets currentSize ;;
  max <- gets maxFileSize ;;
  let potentialSize := cur + entrySize in
  when (max <? potentialSize) (throw QuotaExceeded) ;;;
  d <- gets data ;;
  now <- gets clock ;;
  match d !! k with
  | Some existing => when (isLive now existing) (throw KeyExists)
  | None => ret tt
  end ;;;
  now' <- gets clock ;;
  let expiry := computeExpiry now' ttl in
  modify (data_set k (mkEntry v expiry)) ;;;
  modify (addCurrentSize entrySize).

(** The [try] block of [create]. *)
Definition create_try (k : string) (v : JSON) (ttl : option Z) (entrySize : Z) : Op World unit :=
  create_insert k v ttl entrySize ;;;
  queueSave.

(** The [catch] block of [create]. *)
Definition create_catch (k : string) (entrySize : Z) (error : Error) : Op World unit :=
  modify (data_delete k) ;;;
  modify (addCurrentSize (- entrySize)) ;;;
  throw error.

Definition create (key v : JSON) (ttl : option Z) : Op World unit :=
  k <- validateKey key ;;
  validateValue v ;;;
  let entrySize := estimateEntrySize k v in
  acquireLock k ;;;
  try_finally
    (try_catch (create_try k v ttl entrySize) (create_catch k entrySize))
    (releaseLock k).

(** The [try] block of [read]. *)
Definition read_try (k : string) : Op World JSON :=
  d <- gets data ;;
  match d !! k with
  | None => throw (KeyNotFound false)
  | Some item =>
      now <- gets clock ;;
      if isExpired now item then
        modify (data_delete k) ;;;
        scheduleSave ;;;
        throw (KeyNotFound true)
      else ret (value item)
  end.

Definition read (key : JSON) : Op World JSON :=
  k <- validateKey key ;;
  acquireLock k ;;;
  try_finally (read_try k) (releaseLock k).

(** The [try] block of [delete]. *)
Definition delete_try (k : string) : Op World unit :=
  d <- gets data ;;
  match d !! k with
  | None => throw (KeyNotFound false)
  | Some item =>
      now <- gets clock ;;
      if isExpired now item then
        modify (data_delete k) ;;;
        scheduleSave ;;;
        throw (KeyNotFound true)
      else
        modify (data_delete k) ;;;
        scheduleSave
  end.

(** [delete(key)].  From here on [delete] is the store's operation; the
    deletion of a key from a map is written [base.delete]. *)
Definition delete (key : JSON) : Op World unit :=
  k <- validateKey key ;;
  acquireLock k ;;;
  try_finally (delete_try k) (releaseLock k).

(** The sweep of [compact]. *)
Definition compact_sweep : Op World unit :=
  now <- gets clock ;;
  d <- gets data ;;
  for_each (map_to_list d)
    (fun p => when (isExpired now (snd p)) (modify (data_delete (fst p)))).

Definition compact : Op World unit :=
  acquireLock "compact" ;;;
  try_finally (compact_sweep ;;; saveData) (releaseLock "compact").

(** The timer set by [scheduleSave] fires:
    [this.saveData().catch(console.error)]. *)
Definition saveTimeout_fires : Op World unit :=
  modify (set_saveTimeout None) ;;;
  try_catch saveData (fun error => modify (fun w => set_console (console w ++ [error]) w)).

(** ** batchCreate *)

Definition Item : Type := (JSON * JSON * option Z)%type.

(** The local variables of [batchCreate]. *)
Record BatchLocals : Type := mkLocals {
  failedKeys : list JSON;
  validItems : list (string * JSON * option Z);
  totalNewSize : Z;
  locks : gset string
}.

Definition push_failedKey (key : JSON) (l : BatchLocals) : BatchLocals :=
  mkLocals (failedKeys l ++ [key]) (validItems l) (totalNewSize l) (locks l).
Definition push_validItem (it : string * JSON * option Z) (l : BatchLocals) : BatchLocals :=
  mkLocals (failedKeys l) (validItems l ++ [it]) (totalNewSize l) (locks l).
Definition add_totalNewSize (n : Z) (l : BatchLocals) : BatchLocals :=
  mkLocals (failedKeys l) (validItems l) (totalNewSize l + n) (locks l).
Definition add_lock (key : string) (l : BatchLocals) : BatchLocals :=
  mkLocals (failedKeys l) (validItems l) (totalNewSize l) ({[key]} ∪ locks l).

(** One turn of the validation loop. *)
Definition batch_validate (it : Item) : Op (BatchLocals * World) unit :=
  let key := fst (fst it) in
  let v := snd (fst it) in
  let ttl := snd it in
  try_catch
    (k <- lift (validateKey key) ;;
     lift (validateValue v) ;;;
     let entrySize := estimateEntrySize k v in
     local (add_totalNewSize entrySize) ;;;
     d <- gets (fun s => data (snd s)) ;;
     now <- gets (fun s => clock (snd s)) ;;
     match d !! k with
     | Some existing =>
         if isLive now existing then local (push_failedKey key)
         else local (push_validItem (k, v, ttl))
     | None => local (push_validItem (k, v, ttl))
     end)
    (fun _ => local (push_failedKey key)).

Definition batch_acquire (it : string * JSON * option Z) : Op (BatchLocals * World) unit :=
  let key := fst (fst it) in
  lift (acquireLock key) ;;;
  local (add_lock key).

Definition batch_insert (it : string * JSON * option Z) : Op (BatchLocals * World) unit :=
  let key := fst (fst it) in
  let v := snd (fst it) in
  let ttl := snd it in
  now <- gets (fun s => clock (snd s)) ;;
  let expiry := computeExpiry now ttl in
  lift (modify (data_set key (mkEntry v expiry))).

Definition batch_release : Op (BatchLocals * World) unit :=
  held <- gets (fun s => locks (fst s)) ;;
  for_each (elements held) (fun key => lift (releaseLock key)).

(** The [try] block of [batchCreate]. *)
Definition batch_try : Op (BatchLocals * World) unit :=
  valid <- gets (fun s => validItems (fst s)) ;;
  for_each valid batch_acquire ;;;
  for_each valid batch_insert ;;;
  lift scheduleSave.

Definition batchCreate (items : list Item) : Op World (list JSON) :=
  limit <- gets maxBatchSize ;;
  when (limit <? Z.of_nat (length items)) (throw BatchTooLarge) ;;;
  with_locals (mkLocals [] [] 0 ∅)
    (for_each items batch_validate ;;;
     cur <- gets (fun s => currentSize (snd s)) ;;
     new <- gets (fun s => totalNewSize (fst s)) ;;
     max <- gets (fun s => maxFileSize (snd s)) ;;
     when (max <? cur + new) (throw QuotaExceeded) ;;;
     try_finally batch_try batch_release ;;;
     gets (fun s => failedKeys (fst s))).

(** ** Lifecycle *)

(** One turn of the [forEach] of [loadData]. *)
Definition loadData_entry (now : Z) (p : string * Entry) : Op World unit :=
  when (isLive now (snd p))
    (modify (data_set (fst p) (snd p)) ;;;
     modify (addCurrentSize (estimateEntrySize (fst p) (value (snd p))))).

Definition loadData : Op World unit :=
  try_catch
    (f <- gets file ;;
     match f with
     | None => throw (FsError ENOENT)
     | Some content =>
         max <- gets maxFileSize ;;
         when (max <? fileSize content) (throw QuotaExceeded) ;;;
         match content with
         | Blank _ =>
             modify (set_data ∅) ;;;
             modify (set_currentSize 0)
         | Garbled _ => throw SyntaxError
         | Document fileData =>
             now <- gets clock ;;
             modify (set_data ∅) ;;;
             modify (set_currentSize 0) ;;;
             for_each (map_to_list fileData) (loadData_entry now)
         end
     end)
    (fun error =>
       match error with
       | FsError ENOENT => modify (set_currentSize 0)
       | _ => throw error
       end).

(** [initialize]: the directory exists; the advisory lock is either free or
    held by another process for the whole retry window. *)
Definition initialize : Op World unit :=
  try_catch
    (f <- gets file ;;
     match f with
     | None => fs_writeFile_file (Document ∅)
     | Some _ => ret tt
     end ;;;
     busy <- gets fileLocked ;;
     when busy (throw (FsError ELOCKED)) ;;;
     modify (set_fileLocked true) ;;;
     modify (set_lockInstance true) ;;;
     loadData)
    (fun error =>
       match error with
       | FsError ELOCKED => throw StoreBusy
       | _ => throw error
       end).

Definition cleanup : Op World unit :=
  try_finally
    (try_catch
       (modify (set_saveTimeout None) ;;;
        dirty <- gets isDirty ;;
        when dirty saveData)
       (fun error => modify (fun w => set_console (console w ++ [error]) w)))
    (held <- gets lockInstance ;;
     when held (modify (set_fileLocked false) ;;; modify (set_lockInstance false))).

(** Time passing between two operations. *)
Definition advance (ms : Z) (w : World) : World := set_clock (clock w + ms) w.

(** A host with no file yet, at instant [now]. *)
Definition emptyHost (now : Z) : World :=
  mkWorld ∅ ∅ 0 false None false None 0 0 now None None false None None None [].

(** The sum that [saveData] and [loadData] recompute. *)
Definition totalSize (d : gmap string Entry) : Z :=
  map_fold (fun key item acc => acc + estimateEntrySize key (value item)) 0 d.

(** ** The suspension inside compaction

    [compact] runs without interruption from its sweep to the call of
    [fsp.writeFile] inside [saveData]; it is suspended there, holding the
    lock, until the write and the rename are done. *)

Definition compact_begin : Op World (FileContent * Z) :=
  acquireLock "compact" ;;;
  try_catch (compact_sweep ;;; saveData_prepare)
    (fun error => releaseLock "compact" ;;; throw error).

Definition compact_end (pending : FileContent * Z) : Op World unit :=
  try_finally (saveData_commit pending) (releaseLock "compact").

(** The save that [queueSave] awaits: its own when none is in flight, and
    otherwise what is left of the one in flight. *)
Definition awaitedSave : Op World unit :=
  fun w =>
    match savePromise w with
    | None => saveData w
    | Some (Writing pending) => saveData_commit pending w
    | Some (Rejected error) => (Throw error, w)
    end.

(** The state in which some task holds the lock of [key]. *)
Definition hold (key : string) (w : World) : World :=
  set_lock ({[key]} ∪ lock w) w.

(** The test of [create] and [batchCreate] for a key that already exists
    and is not expired:
    [this.data.has(key)] and [!existing.expiry || existing.expiry > Date.now()]. *)
Definition hasLive (k : string) (w : World) : bool :=
  match data w !! k with
  | Some existing => isLive (clock w) existing
  | None => false
  end.

(** ** Concrete stores

    Each is reached from an empty host through the operations above. *)

Definition T0 : Z := 1730000000000.

(** A store just initialized with the default limits. *)
Definition store0 : World :=
  snd (initialize (KVStore_new (mkOptions None None) (emptyHost T0))).

(** ... after [create("a", 1)]. *)
Definition storeA : World := snd (create (JString "a") (JNumber 1) None store0).

(** [store0] with [create("a", 1)] suspended in its save: the lock of "a"
    is held, the entry is in the index and counted in the running total, and
    the save is in flight. *)
Definition storeA_saving : World :=
  snd ((acquireLock "a" ;;;
        create_insert "a" (JNumber 1) None (estimateEntrySize "a" (JNumber 1)) ;;;
        executeSave_begin) store0).

(** ... after [create("a", "xxxxxxxx", 1)] and two seconds. *)
Definition storeA_expired : World :=
  advance 2000 (snd (create (JString "a") (JString "xxxxxxxx") (Some 1) store0)).

(** A store initialized on a file that holds an entry with expiry 0. *)
Definition storeZ : World :=
  snd (initialize
         (KVStore_new (mkOptions None None)
            (set_file (Some (Document {[ "k"%string := mkEntry (JNumber 1) (Some 0) ]}))
               (emptyHost T0)))).

(** [storeA] with a compaction suspended in its save. *)
Definition storeA_compacting : World := snd (compact_begin storeA).

(** A store limited to 35 bytes, after [create("a", 1, 100)]. *)
Definition opts35 : Options := mkOptions None (Some 35).
Definition store35 : World :=
  snd (create (JString "a") (JNumber 1) (Some 100)
         (snd (initialize (KVStore_new opts35 (emptyHost T0))))).

(** A store with the default limits, after [create("__proto__", 1)]. *)
Definition storeP : World := snd (create (JString "__proto__") (JNumber 1) None store0).

(** Closing a store and opening a new one on the same file, [elapsed]
    milliseconds later. *)
Definition reopen (options : Options) (elapsed : Z) (w : World) : Result unit * World :=
  initialize (KVStore_new options (advance elapsed (snd (cleanup w)))).

(** A store limited to 40 bytes, after [create("a", 1)]. *)
Definition opts40 : Options := mkOptions None (Some 40).
Definition store40 : World :=
  snd (create (JString "a") (JNumber 1) None
         (snd (initialize (KVStore_new opts40 (emptyHost T0))))).


(** ** Predicates used in the statements *)

(** An operation that neither reads nor writes the lock table. *)
Definition lock_agnostic {A} (m : Op World A) : Prop :=
  ∀ l w, m (set_lock l w) = (fst (m w), set_lock l (snd (m w))).

(** The key of an item that passes [validateKey] and [validateValue]. *)
Definition passesValidation (it : Item) : option string :=
  match fst (fst it) with
  | JString s =>
      if (maxKeyLength <? String.length s)%nat then None
      else if maxValueSize <? byteLength (stringify (snd (fst it))) then None
      else Some s
  | _ => None
  end.

(** The sum of the estimated sizes of the items that pass validation,
    whether or not their key is already in the index. *)
Definition validatedSize (items : list Item) : Z :=
  foldr (fun it acc =>
           match passesValidation it with
           | Some k => estimateEntrySize k (snd (fst it)) + acc
           | None => acc
           end) 0 items.

(** The sum over the surviving candidates only: the items that pass
    validation and whose key holds no unexpired entry. *)
Definition survivingSize (w : World) (items : list Item) : Z :=
  foldr (fun it acc =>
           match passesValidation it with
           | Some k => if hasLive k w then acc else estimateEntrySize k (snd (fst it)) + acc
           | None => acc
           end) 0 items.

(** An item survives the validation loop of [batchCreate] when it passes
    validation and its key holds no unexpired entry. *)
Definition survives (w : World) (it : Item) : bool :=
  match passesValidation it with
  | Some k => negb (hasLive k w)
  | None => false
  end.

(** The key of an item, once validated as a string. *)
Definition validKey (it : Item) : string :=
  match passesValidation it with
  | Some k => k
  | None => EmptyString
  end.

(** The keys pushed to [failedKeys], in order. *)
Definition rejected (w : World) (items : list Item) : list JSON :=
  map (fun it => fst (fst it)) (List.filter (fun it => negb (survives w it)) items).

(** The items pushed to [validItems], in order. *)
Definition survivors (w : World) (items : list Item) : list (string * JSON * option Z) :=
  map (fun it => (validKey it, snd (fst it), snd it)) (List.filter (survives w) items).

(** The keys of the valid items, in order. *)
Definition batch_keys (valid : list (string * JSON * option Z)) : list string :=
  map (fun it => fst (fst it)) valid.

(** The index after the insertion loop of [batchCreate]. *)
Definition batch_inserted (now : Z) (valid : list (string * JSON * option Z))
    (d : gmap string Entry) : gmap string Entry :=
  foldl (fun acc it => <[it.1.1 := mkEntry it.1.2 (computeExpiry now it.2)]> acc) d valid.

(** The index after the sweep of [compact] over the entries [l]. *)
Definition swept (now : Z) (l : list (string * Entry)) (d : gmap string Entry) :
    gmap string Entry :=
  foldl (fun acc p => if isExpired now (snd p) then base.delete (fst p) acc else acc) d l.

(** * Properties *)

Create HintDb op_unfold.
#[local] Hint Unfold ret throw bind gets modify try_catch try_finally when
  sleep releaseLock scheduleSave : op_unfold.

Ltac run := autounfold with op_unfold; simpl.

(** ** The repository's own tests, run on the model *)

Example test_create_and_read :
  fst (read (JString "test")
         (snd (create (JString "test") (JObject [("data"%string, JString "test value")])
                 None store0)))
  = Return (JObject [("data"%string, JString "test value")]).
Proof. vm_compute. reflexivity. Qed.

Example test_delete :
  fst (read (JString "a") (snd (delete (JString "a") storeA))) = Throw (KeyNotFound false).
Proof. vm_compute. reflexivity. Qed.

Example test_ttl_expiration :
  fst (read (JString "a") (snd (create (JString "a") (JNumber 1) (Some 1) store0)))
    = Return (JNumber 1) ∧
  fst (read (JString "a")
         (advance 1100 (snd (create (JString "a") (JNumber 1) (Some 1) store0))))
    = Throw (KeyNotFound true).
Proof. vm_compute. split; reflexivity. Qed.

Example test_key_length_limit :
  fst (create (JString "aaaaaaaaaaaaaaaaaaaaaaaaaaaaaaaaa") (JNumber 1) None store0)
  = Throw InvalidKey.
Proof. vm_compute. reflexivity. Qed.

Example test_duplicate_key :
  fst (create (JString "a") (JNumber 2) None storeA) = Throw KeyExists.
Proof. vm_compute. reflexivity. Qed.

Example test_batch_create :
  fst (batchCreate [(JString "key1", JNumber 1, None); (JString "key2", JNumber 2, None);
                    (JString "key3", JNumber 3, None)] store0)
  = Return [].
Proof. vm_compute. reflexivity. Qed.

Example test_batch_size_limit :
  fst (batchCreate (replicate 1001 (JString "key", JNumber 1, None)) store0)
  = Throw BatchTooLarge.
Proof. vm_compute. reflexivity. Qed.

Example test_batch_partial_failure :
  fst (batchCreate [(JString "a", JNumber 2, None); (JString "new-key", JNumber 3, None)]
         storeA)
  = Return [JString "a"].
Proof. vm_compute. reflexivity. Qed.

(** ** Expiry *)

Lemma isExpired_not_isLive now item : isExpired now item = negb (isLive now item).
Proof.
  unfold isExpired, isLive. destruct (expiry item) as [t|]; simpl; [|done].
  destruct (t =? 0); simpl; [done|]. destruct (Z.leb_spec t now), (Z.ltb_spec now t); lia.
Qed.

Lemma isExpired_Some now item t :
  expiry item = Some t → isExpired now item = true ↔ t ≠ 0 ∧ t ≤ now.
Proof.
  intros E. unfold isExpired. rewrite E. simpl.
  destruct (Z.eqb_spec t 0), (Z.leb_spec t now); simpl; split; intros; try done; lia.
Qed.

Lemma isLive_cases now item :
  isLive now item = true ↔
  expiry item = None ∨ expiry item = Some 0 ∨ ∃ t, expiry item = Some t ∧ now < t.
Proof.
  unfold isLive. destruct (expiry item) as [t|]; simpl.
  - destruct (Z.eqb_spec t 0) as [Heq|Hne], (Z.ltb_spec now t) as [Hlt|Hge];
      simpl; split; intros Hx; subst; try done; eauto.
    destruct Hx as [Hx|[Hx|(t' & Hx & ?)]]; simplify_eq; lia.
  - split; auto.
Qed.

(** ** The lock table *)

Lemma world_eta w :
  mkWorld (data w) (lock w) (currentSize w) (isDirty w) (saveTimeout w) (lockInstance w)
    (savePromise w) (maxBatchSize w) (maxFileSize w) (clock w) (file w) (tmp w) (fileLocked w)
    (writeFault w) (renameFault w) (unlinkFault w) (console w) = w.
Proof. by destruct w. Qed.

Lemma validateKey_ok k w :
  (String.length k ≤ maxKeyLength)%nat → validateKey (JString k) w = (Return k, w).
Proof.
  intros H. unfold validateKey.
  destruct (Nat.ltb_spec maxKeyLength (String.length k)); [lia | done].
Qed.

Lemma validateKey_inv key w r w' :
  validateKey key w = (r, w') →
  w' = w ∧ ((r = Throw InvalidKey) ∨
            ∃ k, key = JString k ∧ r = Return k ∧ (String.length k ≤ maxKeyLength)%nat).
Proof.
  unfold validateKey. destruct key; try (intros [= <- <-]; auto).
  destruct (Nat.ltb_spec maxKeyLength (String.length s)); intros [= <- <-]; split; eauto.
Qed.

Lemma validateValue_ok v w :
  byteLength (stringify v) ≤ maxValueSize → validateValue v w = (Return tt, w).
Proof.
  intros H. unfold validateValue.
  destruct (Z.ltb_spec maxValueSize (byteLength (stringify v))); [lia | done].
Qed.

Lemma validateValue_inv v w r w' :
  validateValue v w = (r, w') →
  w' = w ∧ (r = Throw ValueTooLarge ∨
            (r = Return tt ∧ byteLength (stringify v) ≤ maxValueSize)).
Proof.
  unfold validateValue.
  destruct (Z.ltb_spec maxValueSize (byteLength (stringify v))); intros [= <- <-]; auto.
Qed.

Lemma acquireLock_poll_free n k w :
  k ∉ lock w →
  acquireLock_poll n k w = (Return tt, set_lock ({[k]} ∪ lock w) w).
Proof.
  intros H. destruct n; simpl; run; by rewrite bool_decide_eq_false_2.
Qed.

Lemma acquireLock_poll_held n k w :
  k ∈ lock w →
  acquireLock_poll n k w = (Throw (LockTimeout k), set_clock (clock w + 10 * Z.of_nat n) w).
Proof.
  revert w. induction n as [|n IH]; intros w H; simpl; run.
  - rewrite bool_decide_eq_true_2 by done.
    rewrite Z.add_0_r. by destruct w.
  - rewrite bool_decide_eq_true_2 by done.
    rewrite IH by done. simpl. f_equal. unfold set_clock; simpl. f_equal. lia.
Qed.

Lemma acquireLock_free k w :
  k ∉ lock w → acquireLock k w = (Return tt, set_lock ({[k]} ∪ lock w) w).
Proof. apply acquireLock_poll_free. Qed.

Lemma acquireLock_held k w :
  k ∈ lock w → acquireLock k w = (Throw (LockTimeout k), set_clock (clock w + 1000) w).
Proof. intros H. unfold acquireLock. by rewrite acquireLock_poll_held. Qed.

Lemma release_after_acquire (k : string) (l : gset string) :
  k ∉ l → ({[k]} ∪ l) ∖ {[k]} = l.
Proof. set_solver. Qed.

(** ** Size accounting *)

Lemma totalSize_empty : totalSize ∅ = 0.
Proof. unfold totalSize. by rewrite map_fold_empty. Qed.

Lemma totalSize_insert d k item :
  d !! k = None →
  totalSize (<[k := item]> d) = totalSize d + estimateEntrySize k (value item).
Proof.
  intros H. unfold totalSize. rewrite map_fold_insert_L; [done| |done].
  intros. lia.
Qed.

Lemma totalSize_delete d k item :
  d !! k = Some item →
  totalSize d = totalSize (base.delete k d) + estimateEntrySize k (value item).
Proof.
  intros H. rewrite <- (insert_delete_id d k item) at 1 by done.
  apply totalSize_insert, lookup_delete_eq.
Qed.

Lemma saveData_collect_spec d :
  saveData_collect d = (base.delete "__proto__"%string d, totalSize d).
Proof.
  unfold saveData_collect.
  apply (map_fold_weak_ind (fun r m => r = (base.delete "__proto__"%string m, totalSize m))).
  - by rewrite delete_empty, totalSize_empty.
  - intros k item m r Hk ->. simpl. rewrite totalSize_insert by done. f_equal.
    unfold assignProperty. case_bool_decide as Hp.
    + subst k. by rewrite delete_insert_eq.
    + by rewrite delete_insert_ne.
Qed.

(** ** saveData *)

Lemma saveData_prepare_run w :
  saveData_prepare w =
  if maxFileSize w <? totalSize (data w) then (Throw QuotaExceeded, w)
  else (Return (Document (base.delete "__proto__"%string (data w)), totalSize (data w)), w).
Proof.
  unfold saveData_prepare. run. rewrite saveData_collect_spec. simpl.
  by destruct (maxFileSize w <? totalSize (data w)).
Qed.

Lemma saveData_commit_ok pending w :
  writeFault w = None → renameFault w = None →
  saveData_commit pending w =
  (Return tt,
   set_isDirty false (set_currentSize (snd pending)
     (set_tmp None (set_file (Some (fst pending)) w)))).
Proof.
  intros Hw Hr. unfold saveData_commit, fs_writeFile_tmp, fs_rename_tmp. run.
  rewrite Hw. simpl. rewrite Hr. simpl. done.
Qed.

Lemma saveData_ok w :
  totalSize (data w) ≤ maxFileSize w → writeFault w = None → renameFault w = None →
  saveData w =
  (Return tt,
   set_isDirty false (set_currentSize (totalSize (data w))
     (set_tmp None
        (set_file (Some (Document (base.delete "__proto__"%string (data w)))) w)))).
Proof.
  intros Hq Hw Hr. unfold saveData, bind. rewrite saveData_prepare_run.
  destruct (Z.ltb_spec (maxFileSize w) (totalSize (data w))); [lia|].
  by rewrite saveData_commit_ok.
Qed.

(** What any run of [saveData] leaves alone, and what a normal completion
    guarantees. *)
Lemma saveData_inv w r w' :
  saveData w = (r, w') →
  data w' = data w ∧ lock w' = lock w ∧ clock w' = clock w ∧
  maxFileSize w' = maxFileSize w ∧ maxBatchSize w' = maxBatchSize w ∧
  (r = Return tt →
     totalSize (data w) ≤ maxFileSize w ∧ currentSize w' = totalSize (data w) ∧
     isDirty w' = false ∧
     file w' = Some (Document (base.delete "__proto__"%string (data w)))) ∧
  (r ≠ Return tt →
     currentSize w' = currentSize w ∧ isDirty w' = isDirty w ∧ file w' = file w).
Proof.
  unfold saveData, bind. rewrite saveData_prepare_run.
  destruct (Z.ltb_spec (maxFileSize w) (totalSize (data w))).
  - intros [= <- <-]. split_and!; try done.
  - unfold saveData_commit, fs_writeFile_tmp, fs_rename_tmp, fs_unlink_tmp. run.
    destruct (writeFault w); simpl.
    { intros [= <- <-]. split_and!; try done. }
    destruct (renameFault w); simpl.
    { destruct (unlinkFault w); simpl; intros [= <- <-]; split_and!; try done. }
    intros [= <- <-]. split_and!; try done.
Qed.


(** ** Running operations *)

Lemma bind_eq {S A B} (m : Op S A) (k : A → Op S B) s :
  bind m k s =
  match m s with
  | (Return a, s') => k a s'
  | (Throw e, s') => (Throw e, s')
  end.
Proof. reflexivity. Qed.

Lemma bind_Return {S A B} (m : Op S A) (k : A → Op S B) s a s' :
  m s = (Return a, s') → bind m k s = k a s'.
Proof. intros H. by rewrite bind_eq, H. Qed.

Lemma bind_Throw {S A B} (m : Op S A) (k : A → Op S B) s e s' :
  m s = (Throw e, s') → bind m k s = (Throw e, s').
Proof. intros H. by rewrite bind_eq, H. Qed.

(** A critical section on a free lock runs its body with the lock held and
    releases it whatever the completion of the body. *)
Lemma critical_section_free {A} k (body : Op World A) w :
  k ∉ lock w →
  (acquireLock k ;;; try_finally body (releaseLock k)) w =
  (fst (body (hold k w)),
   set_lock (lock (snd (body (hold k w))) ∖ {[k]}) (snd (body (hold k w)))).
Proof.
  intros H. rewrite (bind_Return _ _ _ _ _ (acquireLock_free k w H)).
  unfold try_finally, hold. by destruct (body _) as [r w1].
Qed.

(** On a held lock it gives up after [maxAttempts] polls, ten milliseconds
    apart, and the body does not run. *)
Lemma critical_section_held {A} k (body : Op World A) w :
  k ∈ lock w →
  (acquireLock k ;;; try_finally body (releaseLock k)) w =
  (Throw (LockTimeout k), set_clock (clock w + 1000) w).
Proof. intros H. by rewrite (bind_Throw _ _ _ _ _ (acquireLock_held k w H)). Qed.

(** ** create *)

Lemma saveData_commit_inv pending w r w' :
  saveData_commit pending w = (r, w') →
  data w' = data w ∧ lock w' = lock w ∧ clock w' = clock w ∧
  maxFileSize w' = maxFileSize w ∧ maxBatchSize w' = maxBatchSize w ∧
  savePromise w' = savePromise w ∧
  (r = Return tt →
     writeFault w = None ∧ renameFault w = None ∧
     currentSize w' = snd pending ∧ isDirty w' = false ∧ file w' = Some (fst pending)) ∧
  (r ≠ Return tt →
     currentSize w' = currentSize w ∧ isDirty w' = isDirty w ∧ file w' = file w).
Proof.
  unfold saveData_commit, fs_writeFile_tmp, fs_rename_tmp, fs_unlink_tmp. run.
  destruct (writeFault w); simpl.
  { intros [= <- <-]. split_and!; try done. }
  destruct (renameFault w); simpl.
  { destruct (unlinkFault w); simpl; intros [= <- <-]; split_and!; try done. }
  intros [= <- <-]. split_and!; try done.
Qed.

Lemma saveData_savePromise w : savePromise (snd (saveData w)) = savePromise w.
Proof.
  unfold saveData, bind. rewrite saveData_prepare_run.
  destruct (Z.ltb_spec (maxFileSize w) (totalSize (data w))); [done|].
  destruct (saveData_commit _ w) as [r w'] eqn:E.
  by apply saveData_commit_inv in E as (_ & _ & _ & _ & _ & ? & _).
Qed.

(** What the save that [queueSave] awaits does: with none in flight, the
    caller's own save; with one in flight, the rest of that one, whose
    document and total were computed before the caller came. *)
Lemma awaitedSave_inv w r w' :
  awaitedSave w = (r, w') →
  data w' = data w ∧ lock w' = lock w ∧ clock w' = clock w ∧
  maxFileSize w' = maxFileSize w ∧ maxBatchSize w' = maxBatchSize w ∧
  (r = Return tt →
     isDirty w' = false ∧
     match savePromise w with
     | None =>
         totalSize (data w) ≤ maxFileSize w ∧ currentSize w' = totalSize (data w) ∧
         file w' = Some (Document (base.delete "__proto__"%string (data w)))
     | Some (Writing pending) =>
         currentSize w' = snd pending ∧ file w' = Some (fst pending)
     | Some (Rejected _) => False
     end) ∧
  (r ≠ Return tt →
     currentSize w' = currentSize w ∧ isDirty w' = isDirty w ∧ file w' = file w).
Proof.
  unfold awaitedSave. destruct (savePromise w) as [[pending|error]|].
  - intros E. apply saveData_commit_inv in E as (? & ? & ? & ? & ? & _ & Hok & Hko).
    split_and!; try done. intros Hr. by destruct (Hok Hr) as (_ & _ & ? & ? & ?).
  - intros [= <- <-]. split_and!; try done.
  - intros E. apply saveData_inv in E as (? & ? & ? & ? & ? & Hok & Hko).
    split_and!; try done. intros Hr. by destruct (Hok Hr) as (? & ? & ? & ?).
Qed.


Lemma queueSave_run w :
  queueSave w =
  match awaitedSave w with
  | (Return a, w2) => (Return a, set_savePromise None w2)
  | (Throw e, w2) => (Throw (PersistenceFailed e), set_savePromise None w2)
  end.
Proof.
  unfold queueSave, awaitedSave, executeSave, executeSave_resume. run.
  destruct (savePromise w) as [[pending|error]|]; simpl; [|done|].
  - by destruct (saveData_commit pending w) as [[[]|e] w2].
  - by destruct (saveData w) as [[[]|e] w2].
Qed.

(** The two halves of [executeSave] make [executeSave]. *)
Lemma executeSave_split w :
  executeSave w =
  (executeSave_begin ;;;
   inFlight <- gets savePromise ;;
   match inFlight with
   | Some started => executeSave_resume started
   | None => ret tt
   end) w.
Proof.
  unfold executeSave, executeSave_begin, executeSave_resume, saveData.
  unfold try_finally, try_catch. rewrite !bind_eq. rewrite saveData_prepare_run.
  destruct (maxFileSize w <? totalSize (data w)); run; [done|].
  unfold saveData_commit, fs_writeFile_tmp, fs_rename_tmp, fs_unlink_tmp. run.
  destruct (writeFault w); simpl; [done|].
  destruct (renameFault w); simpl; [|done].
  by destruct (unlinkFault w).
Qed.

Lemma create_insert_run k v ttl entrySize w :
  create_insert k v ttl entrySize w =
  if maxFileSize w <? currentSize w + entrySize then (Throw QuotaExceeded, w)
  else if hasLive k w then (Throw KeyExists, w)
  else (Return tt,
        addCurrentSize entrySize (data_set k (mkEntry v (computeExpiry (clock w) ttl)) w)).
Proof.
  unfold create_insert, hasLive. run.
  destruct (maxFileSize w <? currentSize w + entrySize); [done|]. simpl.
  destruct (data w !! k) as [existing|]; simpl; [|done].
  by destruct (isLive (clock w) existing).
Qed.

Lemma create_try_run k v ttl entrySize w :
  create_try k v ttl entrySize w =
  if maxFileSize w <? currentSize w + entrySize then (Throw QuotaExceeded, w)
  else if hasLive k w then (Throw KeyExists, w)
  else
    match awaitedSave (addCurrentSize entrySize
                         (data_set k (mkEntry v (computeExpiry (clock w) ttl)) w)) with
    | (Return a, w2) => (Return a, set_savePromise None w2)
    | (Throw e, w2) => (Throw (PersistenceFailed e), set_savePromise None w2)
    end.
Proof.
  unfold create_try. rewrite bind_eq, create_insert_run.
  destruct (maxFileSize w <? currentSize w + entrySize); [done|].
  destruct (hasLive k w); [done|]. apply queueSave_run.
Qed.

Lemma create_run k v ttl w :
  (String.length k ≤ maxKeyLength)%nat →
  byteLength (stringify v) ≤ maxValueSize →
  k ∉ lock w →
  create (JString k) v ttl w =
  (acquireLock k ;;;
   try_finally
     (try_catch (create_try k v ttl (estimateEntrySize k v))
        (create_catch k (estimateEntrySize k v)))
     (releaseLock k)) w.
Proof.
  intros Hk Hv Hl. unfold create.
  rewrite (bind_Return _ _ _ _ _ (validateKey_ok k w Hk)).
  by rewrite (bind_Return _ _ _ _ _ (validateValue_ok v w Hv)).
Qed.

(** C1. On a key that holds an unexpired entry, [create] throws KeyExists
    from inside its [try] block, so its [catch] block runs the rollback meant
    for a failed save: the entry that was there is deleted and the running
    total loses the size of the entry that was never added.  The same happens
    when the quota check throws. *)
Theorem create_rejection_rolls_back (w : World) (k : string) (v : JSON) (ttl : option Z) :
  (String.length k ≤ maxKeyLength)%nat →
  byteLength (stringify v) ≤ maxValueSize →
  k ∉ lock w →
  let after := snd (create (JString k) v ttl w) in
  let entrySize := estimateEntrySize k v in
  (∀ existing,
     data w !! k = Some existing → isLive (clock w) existing = true →
     currentSize w + entrySize ≤ maxFileSize w →
     fst (create (JString k) v ttl w) = Throw KeyExists ∧
     data after !! k = None ∧
     data after = base.delete k (data w) ∧
     currentSize after = currentSize w - entrySize) ∧
  (maxFileSize w < currentSize w + entrySize →
     fst (create (JString k) v ttl w) = Throw QuotaExceeded ∧
     data after = base.delete k (data w) ∧
     currentSize after = currentSize w - entrySize).
Proof.
  intros Hk Hv Hl. simpl. rewrite create_run by done.
  rewrite critical_section_free by done.
  unfold try_catch. rewrite create_try_run. simpl.
  split.
  - intros existing Hd Hlive Hq.
    destruct (Z.ltb_spec (maxFileSize w) (currentSize w + estimateEntrySize k v)); [lia|].
    replace (hasLive k (hold k w)) with true by (unfold hasLive; simpl; by rewrite Hd).
    simpl. split_and!; try done. apply lookup_delete_eq.
  - intros Hq.
    destruct (Z.ltb_spec (maxFileSize w) (currentSize w + estimateEntrySize k v)); [|lia].
    simpl. split_and!; try done.
Qed.

(** What a normal completion of [create] has done. *)
Lemma create_Return_inv key v ttl w w' :
  create key v ttl w = (Return tt, w') →
  ∃ k, key = JString k ∧
       data w' = <[k := mkEntry v (computeExpiry (clock w) ttl)]> (data w) ∧
       match savePromise w with
       | None => currentSize w' = totalSize (data w') ∧ totalSize (data w') ≤ maxFileSize w
       | Some (Writing pending) => currentSize w' = snd pending
       | Some (Rejected _) => False
       end ∧
       currentSize w + estimateEntrySize k v ≤ maxFileSize w ∧
       hasLive k w = false ∧
       maxFileSize w' = maxFileSize w ∧ lock w' = lock w ∧ clock w' = clock w.
Proof.
  unfold create. rewrite bind_eq.
  destruct (validateKey key w) as [rk wk] eqn:Ek.
  apply validateKey_inv in Ek as [-> [-> | (k & -> & -> & Hlen)]]; [done|].
  rewrite bind_eq. destruct (validateValue v w) as [rv wv] eqn:Ev.
  apply validateValue_inv in Ev as [-> [-> | [-> Hv]]]; [done|].
  cbv zeta.
  destruct (decide (k ∈ lock w)) as [Hin|Hout].
  { by rewrite critical_section_held. }
  rewrite critical_section_free by done.
  unfold try_catch. rewrite create_try_run. simpl.
  destruct (Z.ltb_spec (maxFileSize w) (currentSize w + estimateEntrySize k v)); [done|].
  replace (hasLive k (hold k w)) with (hasLive k w) by done.
  destruct (hasLive k w) eqn:Hlive; [done|].
  match goal with |- context [awaitedSave ?x] => destruct (awaitedSave x) as [r w2] eqn:E end.
  destruct r as [[]|e]; [|done].
  apply awaitedSave_inv in E as (Hd & Hlk & Hc & Hm & _ & Hok & _).
  destruct (Hok eq_refl) as (_ & Hs). simpl in *.
  intros [= <-]. simpl. exists k. rewrite Hd, Hlk, Hc, Hm. simpl.
  split_and!; try done; [|by apply release_after_acquire].
  destruct (savePromise w) as [[pending|error]|]; [by destruct Hs | done |].
  destruct Hs as (Hq & Hs & _). by rewrite Hs.
Qed.

(** ** delete *)

Lemma delete_try_run k w :
  delete_try k w =
  match data w !! k with
  | None => (Throw (KeyNotFound false), w)
  | Some item =>
      let w' := set_saveTimeout (Some (clock w + 1000)) (set_isDirty true (data_delete k w)) in
      if isExpired (clock w) item then (Throw (KeyNotFound true), w') else (Return tt, w')
  end.
Proof.
  unfold delete_try. run. destruct (data w !! k) as [item|]; [|done].
  by destruct (isExpired (clock w) item).
Qed.

(** What a normal completion of [delete] has done. *)
Lemma delete_Return_inv key w w' :
  delete key w = (Return tt, w') →
  ∃ k item, key = JString k ∧ data w !! k = Some item ∧
            isExpired (clock w) item = false ∧
            data w' = base.delete k (data w) ∧
            currentSize w' = currentSize w ∧
            isDirty w' = true ∧ saveTimeout w' = Some (clock w + 1000) ∧
            lock w' = lock w.
Proof.
  unfold delete. rewrite bind_eq.
  destruct (validateKey key w) as [rk wk] eqn:Ek.
  apply validateKey_inv in Ek as [-> [-> | (k & -> & -> & Hlen)]]; [done|].
  destruct (decide (k ∈ lock w)) as [Hin|Hout].
  { by rewrite critical_section_held. }
  rewrite critical_section_free by done.
  rewrite delete_try_run. simpl.
  destruct (data w !! k) as [item|] eqn:Hd; [|done]. simpl.
  destruct (isExpired (clock w) item) eqn:He; [done|].
  intros [= <-]. simpl. exists k, item. split_and!; try done.
  by apply release_after_acquire.
Qed.

(** ** The running total *)


(** A [create] that finds a save in flight awaits that save and starts none
    of its own: it returns with the total that save had computed, which does
    not count the entry it has just inserted. *)
Lemma create_during_save_keeps_that_total :
  savePromise storeA_saving
    = Some (Writing (Document {[ "a"%string := mkEntry (JNumber 1) None ]}, 31)) ∧
  fst (create (JString "b") (JNumber 2) None storeA_saving) = Return tt ∧
  currentSize (snd (create (JString "b") (JNumber 2) None storeA_saving)) = 31 ∧
  totalSize (data (snd (create (JString "b") (JNumber 2) None storeA_saving))) = 62 ∧
  file (snd (create (JString "b") (JNumber 2) None storeA_saving))
    = Some (Document {[ "a"%string := mkEntry (JNumber 1) None ]}).
Proof. vm_compute. split_and!; reflexivity. Qed.



(** ** Expiry of a created entry *)

(** C3, as stated, fails for a negative ttl: it is truthy, so the entry gets
    an expiry, one that lies in the past. *)
Lemma negative_ttl_sets_expiry :
  fst (create (JString "a") (JNumber 1) (Some (-5)) store0) = Return tt ∧
  data (snd (create (JString "a") (JNumber 1) (Some (-5)) store0)) !! "a"%string
    = Some (mkEntry (JNumber 1) (Some (clock store0 - 5000))) ∧
  Some (clock store0 - 5000) ≠ None.
Proof. vm_compute. split_and!; done. Qed.

(** C3, amended.  The entry stored by a [create] that completes has no
    expiry when ttl is absent or zero, and for every other ttl, negative ones
    included, expires at the creation instant plus ttl*1000 milliseconds. *)
Theorem create_stored_expiry (w : World) (key v : JSON) (ttl : option Z) (w' : World) :
  create key v ttl w = (Return tt, w') →
  ∃ k e, key = JString k ∧ data w' !! k = Some (mkEntry v e) ∧
         (ttl = None ∨ ttl = Some 0 → e = None) ∧
         (∀ t, ttl = Some t → t ≠ 0 → e = Some (clock w + t * 1000)).
Proof.
  intros H. apply create_Return_inv in H as (k & -> & Hd & _).
  exists k, (computeExpiry (clock w) ttl). rewrite Hd, lookup_insert_eq.
  split_and!; try done.
  - by intros [-> | ->].
  - intros t -> Ht. simpl. by destruct (Z.eqb_spec t 0).
Qed.

Lemma create_stored_expiry_witness :
  ∃ k e, JString "a" = JString k ∧
         data (snd (create (JString "a") (JNumber 1) (Some 60) store0)) !! k
           = Some (mkEntry (JNumber 1) e) ∧
         (Some 60 = @None Z ∨ Some 60 = Some 0 → e = None) ∧
         (∀ t, Some 60 = Some t → t ≠ 0 → e = Some (clock store0 + t * 1000)).
Proof.
  apply (create_stored_expiry store0 (JString "a") (JNumber 1) (Some 60)).
  vm_compute. reflexivity.
Defined.

(** ** read *)

Lemma release_hold k w :
  k ∉ lock w → set_lock (lock (hold k w) ∖ {[k]}) (hold k w) = w.
Proof.
  intros H. destruct w; unfold hold, set_lock; simpl in *. f_equal.
  by apply release_after_acquire.
Qed.

Lemma read_try_run k w :
  read_try k w =
  match data w !! k with
  | None => (Throw (KeyNotFound false), w)
  | Some item =>
      if isExpired (clock w) item then
        (Throw (KeyNotFound true),
         set_saveTimeout (Some (clock w + 1000)) (set_isDirty true (data_delete k w)))
      else (Return (value item), w)
  end.
Proof.
  unfold read_try. run. destruct (data w !! k) as [item|]; [|done].
  by destruct (isExpired (clock w) item).
Qed.

(** C7, as stated, fails for an entry whose expiry is 0: the test
    [item.expiry && item.expiry <= Date.now()] takes 0 for "no expiry", and
    [read] returns the value of an entry whose expiry lies before now. *)
Lemma read_returns_entry_with_expiry_zero :
  data storeZ !! "k"%string = Some (mkEntry (JNumber 1) (Some 0)) ∧
  0 ≤ clock storeZ ∧
  read (JString "k") storeZ = (Return (JNumber 1), storeZ).
Proof. vm_compute. split_and!; done. Qed.

(** C7, amended.  For a valid key whose lock is free: [read] throws
    KeyNotFound when the key is absent; when the entry has a non-zero expiry
    at or before now it deletes the entry, schedules the debounced save and
    throws KeyNotFound with the "expired" message; otherwise, that is with no
    expiry, expiry 0 or an expiry after now, it returns the stored value and
    changes nothing. *)
Theorem read_outcomes (w : World) (k : string) :
  (String.length k ≤ maxKeyLength)%nat →
  k ∉ lock w →
  (data w !! k = None → read (JString k) w = (Throw (KeyNotFound false), w)) ∧
  (∀ item t,
     data w !! k = Some item → expiry item = Some t → t ≠ 0 → t ≤ clock w →
     ∃ w', read (JString k) w = (Throw (KeyNotFound true), w') ∧
           data w' = base.delete k (data w) ∧
           isDirty w' = true ∧ saveTimeout w' = Some (clock w + 1000) ∧
           lock w' = lock w ∧ currentSize w' = currentSize w) ∧
  (∀ item,
     data w !! k = Some item →
     (expiry item = None ∨ expiry item = Some 0 ∨ ∃ t, expiry item = Some t ∧ clock w < t) →
     read (JString k) w = (Return (value item), w)).
Proof.
  intros Hk Hl.
  assert (Hrun : read (JString k) w =
                 (fst (read_try k (hold k w)),
                  set_lock (lock (snd (read_try k (hold k w))) ∖ {[k]})
                    (snd (read_try k (hold k w))))).
  { unfold read. rewrite (bind_Return _ _ _ _ _ (validateKey_ok k w Hk)).
    by apply critical_section_free. }
  rewrite Hrun, read_try_run.
  change (data (hold k w)) with (data w). change (clock (hold k w)) with (clock w).
  split_and!.
  - intros ->. cbn [fst snd]. by rewrite release_hold.
  - intros item t -> He Ht Hle.
    rewrite (proj2 (isExpired_Some (clock w) item t He)) by done.
    eexists. split; [reflexivity|]. simpl. split_and!; try done.
    by apply release_after_acquire.
  - intros item -> Hlive. apply isLive_cases in Hlive.
    rewrite isExpired_not_isLive, Hlive. cbn [negb fst snd]. by rewrite release_hold.
Qed.

Lemma read_outcomes_witness :
  read (JString "a") storeA = (Return (JNumber 1), storeA).
Proof.
  assert (Hk : (String.length "a" ≤ maxKeyLength)%nat) by (vm_compute; lia).
  assert (Hl : "a"%string ∉ lock storeA) by (apply (bool_decide_unpack _); vm_compute; exact I).
  apply (proj2 (proj2 (read_outcomes storeA "a" Hk Hl)) (mkEntry (JNumber 1) None)).
  - vm_compute. reflexivity.
  - left. reflexivity.
Defined.

Lemma create_rejection_rolls_back_witness :
  fst (create (JString "a") (JNumber 2) None storeA) = Throw KeyExists ∧
  data (snd (create (JString "a") (JNumber 2) None storeA)) !! "a"%string = None ∧
  data (snd (create (JString "a") (JNumber 2) None storeA))
    = base.delete "a"%string (data storeA) ∧
  currentSize (snd (create (JString "a") (JNumber 2) None storeA))
    = currentSize storeA - estimateEntrySize "a" (JNumber 2).
Proof.
  assert (Hk : (String.length "a" ≤ maxKeyLength)%nat) by (vm_compute; lia).
  assert (Hv : byteLength (stringify (JNumber 2)) ≤ maxValueSize) by (vm_compute; discriminate).
  assert (Hl : "a"%string ∉ lock storeA) by (apply (bool_decide_unpack _); vm_compute; exact I).
  apply (proj1 (create_rejection_rolls_back storeA "a" (JNumber 2) None Hk Hv Hl)
           (mkEntry (JNumber 1) None)).
  - vm_compute. reflexivity.
  - vm_compute. reflexivity.
  - vm_compute. discriminate.
Defined.

(** ** Operations that leave the lock table alone *)

Section LockAgnostic.
Context {A B : Type}.

Lemma lock_agnostic_ret (a : A) : lock_agnostic (ret a).
Proof. by intros l w. Qed.

Lemma lock_agnostic_throw (e : Error) : lock_agnostic (@throw World A e).
Proof. by intros l w. Qed.

Lemma lock_agnostic_gets (f : World → A) :
  (∀ l w, f (set_lock l w) = f w) → lock_agnostic (gets f).
Proof. intros H l w. unfold gets. by rewrite H. Qed.

Lemma lock_agnostic_bind (m : Op World A) (k : A → Op World B) :
  lock_agnostic m → (∀ a, lock_agnostic (k a)) → lock_agnostic (bind m k).
Proof.
  intros Hm Hk l w. rewrite !bind_eq, Hm.
  destruct (m w) as [[a|e] w1]; simpl; [apply Hk | done].
Qed.

Lemma lock_agnostic_try_catch (m : Op World A) (h : Error → Op World A) :
  lock_agnostic m → (∀ e, lock_agnostic (h e)) → lock_agnostic (try_catch m h).
Proof.
  intros Hm Hh l w. unfold try_catch. rewrite Hm.
  destruct (m w) as [[a|e] w1]; simpl; [done | apply Hh].
Qed.

Lemma lock_agnostic_for_each (xs : list A) (body : A → Op World unit) :
  (∀ x, lock_agnostic (body x)) → lock_agnostic (for_each xs body).
Proof.
  intros H. induction xs as [|x xs IH]; simpl.
  - by intros l w.
  - intros l w. rewrite !bind_eq, H.
    destruct (body x w) as [[[]|e] w1]; simpl; [apply IH | done].
Qed.

Lemma lock_agnostic_keeps (m : Op World A) w :
  lock_agnostic m → lock (snd (m w)) = lock w.
Proof.
  intros H. specialize (H (lock w) w).
  replace (set_lock (lock w) w) with w in H by by destruct w.
  by rewrite H.
Qed.
End LockAgnostic.

Lemma lock_agnostic_modify (f : World → World) :
  (∀ l w, f (set_lock l w) = set_lock l (f w)) → lock_agnostic (modify f).
Proof. intros H l w. unfold modify. by rewrite H. Qed.

Lemma lock_agnostic_try_finally {A} (m : Op World A) (fin : Op World unit) :
  lock_agnostic m → lock_agnostic fin → lock_agnostic (try_finally m fin).
Proof.
  intros Hm Hf l w. unfold try_finally. rewrite Hm.
  destruct (m w) as [r w1]; simpl. rewrite Hf.
  by destruct (fin w1) as [[[]|e] w2].
Qed.

Lemma lock_agnostic_when (b : bool) (m : Op World unit) :
  lock_agnostic m → lock_agnostic (when b m).
Proof. intros H. destruct b; [done | apply lock_agnostic_ret]. Qed.

Ltac agnostic :=
  repeat first
    [ apply lock_agnostic_ret
    | apply lock_agnostic_throw
    | apply lock_agnostic_gets; reflexivity
    | apply lock_agnostic_modify; reflexivity
    | apply lock_agnostic_when
    | apply lock_agnostic_bind; [|intros ?]
    | apply lock_agnostic_try_catch; [|intros ?]
    | apply lock_agnostic_try_finally
    | apply lock_agnostic_for_each; intros ?
    | match goal with
      | |- lock_agnostic (match ?x with _ => _ end) => destruct x
      end ].

Lemma saveData_lock_agnostic : lock_agnostic saveData.
Proof.
  unfold saveData, saveData_prepare, saveData_commit, fs_writeFile_tmp,
    fs_rename_tmp, fs_unlink_tmp.
  agnostic.
Qed.

Lemma create_body_lock_agnostic k v ttl entrySize :
  lock_agnostic (try_catch (create_try k v ttl entrySize) (create_catch k entrySize)).
Proof.
  unfold create_try, create_insert, create_catch, queueSave, executeSave,
    executeSave_resume, saveData, saveData_prepare, saveData_commit, fs_writeFile_tmp,
    fs_rename_tmp, fs_unlink_tmp.
  agnostic.
Qed.

Lemma read_try_lock_agnostic k : lock_agnostic (read_try k).
Proof. unfold read_try, scheduleSave. agnostic. Qed.

Lemma delete_try_lock_agnostic k : lock_agnostic (delete_try k).
Proof. unfold delete_try, scheduleSave. agnostic. Qed.

Lemma compact_body_lock_agnostic : lock_agnostic (compact_sweep ;;; saveData).
Proof. unfold compact_sweep. agnostic. Qed.

(** A critical section around a body that leaves the lock table alone
    leaves it as it found it. *)
Lemma critical_section_lock {A} k (body : Op World A) w :
  lock_agnostic body →
  lock (snd ((acquireLock k ;;; try_finally body (releaseLock k)) w)) = lock w.
Proof.
  intros Hb. destruct (decide (k ∈ lock w)) as [Hin|Hout].
  - by rewrite critical_section_held.
  - rewrite critical_section_free by done. cbn [snd].
    change (lock (set_lock ?l _)) with l.
    rewrite lock_agnostic_keeps by done. by apply release_after_acquire.
Qed.

(** ** batchCreate and the lock table *)

(** The validation loop changes only the local lists and the local sum. *)
Lemma batch_validate_step it L w :
  ∃ L', batch_validate it (L, w) = (Return tt, (L', w)) ∧ locks L' = locks L.
Proof.
  unfold batch_validate, try_catch. rewrite bind_eq. unfold lift at 1. cbn [fst snd].
  destruct (validateKey it.1.1 w) as [rk wk] eqn:Ek.
  apply validateKey_inv in Ek as [-> [-> | (k & Hkey & -> & Hlen)]].
  { eexists. split; [reflexivity|done]. }
  rewrite bind_eq. unfold lift at 1. cbn [fst snd].
  destruct (validateValue it.1.2 w) as [rv wv] eqn:Ev.
  apply validateValue_inv in Ev as [-> [-> | [-> Hv]]].
  { eexists. split; [reflexivity|done]. }
  cbv zeta. unfold local, modify, gets, bind. cbn [fst snd].
  destruct (data w !! k) as [existing|]; [destruct (isLive (clock w) existing)|];
    (eexists; split; [reflexivity|done]).
Qed.

Lemma batch_validate_loop items L w :
  ∃ L', for_each items batch_validate (L, w) = (Return tt, (L', w)) ∧ locks L' = locks L.
Proof.
  revert L. induction items as [|it items IH]; intros L; simpl.
  - by exists L.
  - rewrite bind_eq. destruct (batch_validate_step it L w) as (L1 & -> & H1).
    destruct (IH L1) as (L2 & -> & H2). exists L2. split; [done|congruence].
Qed.

(** Whatever the completion of the acquisition loop, the lock table is what
    it was plus the keys recorded in [locks], none of which was held. *)
Lemma batch_acquire_loop valid L w (base : gset string) :
  lock w = locks L ∪ base → locks L ## base →
  ∃ r L' w', for_each valid batch_acquire (L, w) = (r, (L', w')) ∧
             lock w' = locks L' ∪ base ∧ locks L' ## base ∧ data w' = data w.
Proof.
  revert L w. induction valid as [|it valid IH]; intros L w Hl Hd; simpl.
  - by exists (Return tt), L, w.
  - rewrite bind_eq. unfold batch_acquire at 1. rewrite bind_eq.
    unfold lift at 1. cbn [fst snd].
    destruct (decide (it.1.1 ∈ lock w)) as [Hin|Hout].
    + rewrite acquireLock_held by done. eexists _, _, _. split; [reflexivity|]. done.
    + rewrite acquireLock_free by done. unfold local, modify. cbn [fst snd].
      destruct (IH (add_lock it.1.1 L) (set_lock ({[it.1.1]} ∪ lock w) w))
        as (r & L2 & w2 & E & H1 & H2 & H3); simpl.
      * rewrite Hl. set_solver.
      * rewrite Hl in Hout. set_solver.
      * rewrite E. by eexists _, _, _.
Qed.

Lemma batch_insert_loop valid L w :
  ∃ w2, for_each valid batch_insert (L, w) = (Return tt, (L, w2)) ∧ lock w2 = lock w.
Proof.
  revert w. induction valid as [|it valid IH]; intros w; simpl.
  - by exists w.
  - rewrite bind_eq. unfold batch_insert at 1, lift, modify, gets, bind. cbn [fst snd].
    destruct (IH (data_set it.1.1 (mkEntry it.1.2 (computeExpiry (clock w) it.2)) w))
      as (w2 & -> & Hl).
    by exists w2.
Qed.

Lemma batch_release_loop keys L w :
  for_each keys (fun key => @lift BatchLocals unit (releaseLock key)) (L, w) =
  (Return tt, (L, set_lock (lock w ∖ list_to_set keys) w)).
Proof.
  revert w. induction keys as [|key keys IH]; intros w; simpl.
  - unfold ret. do 2 f_equal. destruct w; unfold set_lock; simpl. f_equal. set_solver.
  - rewrite bind_eq. unfold lift at 1, releaseLock, modify. cbn [fst snd].
    rewrite IH. do 2 f_equal. unfold set_lock; simpl. f_equal. set_solver.
Qed.

Lemma batch_release_run L w :
  batch_release (L, w) = (Return tt, (L, set_lock (lock w ∖ locks L) w)).
Proof.
  unfold batch_release. rewrite bind_eq. unfold gets. cbn [fst snd].
  by rewrite batch_release_loop, list_to_set_elements_L.
Qed.

(** The [try]/[finally] of [batchCreate] gives back every lock it took,
    whether the [try] block completes or throws. *)
Lemma batch_critical_section_lock L w :
  locks L = ∅ →
  lock (snd (snd (try_finally batch_try batch_release (L, w)))) = lock w.
Proof.
  intros HL. unfold try_finally, batch_try. rewrite bind_eq. unfold gets at 1.
  cbn [fst snd]. rewrite bind_eq.
  destruct (batch_acquire_loop (validItems L) L w (lock w))
    as (r & L1 & w1 & -> & Hl1 & Hd1 & _); [set_solver | set_solver |].
  destruct r as [[]|e].
  - rewrite bind_eq.
    destruct (batch_insert_loop (validItems L) L1 w1) as (w2 & -> & Hl2).
    unfold lift, scheduleSave. run. rewrite batch_release_run. simpl.
    rewrite Hl2, Hl1. set_solver.
  - rewrite batch_release_run. simpl. rewrite Hl1. set_solver.
Qed.

Lemma batchCreate_lock items w : lock (snd (batchCreate items w)) = lock w.
Proof.
  unfold batchCreate. rewrite bind_eq. unfold gets at 1.
  rewrite bind_eq. destruct (maxBatchSize w <? Z.of_nat (length items)); [done|].
  unfold when at 1, ret at 1. unfold with_locals.
  rewrite bind_eq.
  destruct (batch_validate_loop items (mkLocals [] [] 0 ∅) w) as (L1 & -> & HL1).
  simpl in HL1.
  unfold gets at 1 2 3. rewrite !bind_eq. cbn [fst snd].
  destruct (maxFileSize w <? currentSize w + totalNewSize L1); [done|].
  unfold when at 1, ret at 1.
  pose proof (batch_critical_section_lock L1 w HL1) as H. rewrite bind_eq.
  destruct (try_finally batch_try batch_release (L1, w)) as [[[]|e] [L2 w2]]; done.
Qed.

(** ** Locks never leak *)

(** C10. Whatever its arguments and the state it runs in, and whether it
    returns or throws, every operation leaves the lock table as it found it:
    each lock it took has been released, and it has touched no other. *)
Theorem locks_are_released (w : World) :
  (∀ key v ttl, lock (snd (create key v ttl w)) = lock w) ∧
  (∀ key, lock (snd (read key w)) = lock w) ∧
  (∀ key, lock (snd (delete key w)) = lock w) ∧
  (∀ items, lock (snd (batchCreate items w)) = lock w) ∧
  lock (snd (compact w)) = lock w.
Proof.
  split_and!.
  - intros key v ttl. unfold create. rewrite bind_eq.
    destruct (validateKey key w) as [rk wk] eqn:Ek.
    apply validateKey_inv in Ek as [-> [-> | (k & -> & -> & Hlen)]]; [done|].
    rewrite bind_eq. destruct (validateValue v w) as [rv wv] eqn:Ev.
    apply validateValue_inv in Ev as [-> [-> | [-> Hv]]]; [done|].
    apply critical_section_lock, create_body_lock_agnostic.
  - intros key. unfold read. rewrite bind_eq.
    destruct (validateKey key w) as [rk wk] eqn:Ek.
    apply validateKey_inv in Ek as [-> [-> | (k & -> & -> & Hlen)]]; [done|].
    apply critical_section_lock, read_try_lock_agnostic.
  - intros key. unfold delete. rewrite bind_eq.
    destruct (validateKey key w) as [rk wk] eqn:Ek.
    apply validateKey_inv in Ek as [-> [-> | (k & -> & -> & Hlen)]]; [done|].
    apply critical_section_lock, delete_try_lock_agnostic.
  - intros items. apply batchCreate_lock.
  - apply critical_section_lock, compact_body_lock_agnostic.
Qed.

(** ** The lock held by compaction *)

(** [compact_begin] followed by [compact_end] is [compact]. *)
Lemma compact_split w : compact w = (pending <- compact_begin ;; compact_end pending) w.
Proof.
  unfold compact, compact_begin, compact_end, saveData.
  rewrite !bind_eq.
  destruct (acquireLock "compact" w) as [[[]|e] w1]; [|done].
  unfold try_finally, try_catch. rewrite !bind_eq.
  destruct (compact_sweep w1) as [[[]|e] w2].
  - rewrite !bind_eq. destruct (saveData_prepare w2) as [[p|e] w3]; [done|].
    unfold releaseLock, modify, throw. by rewrite bind_eq.
  - unfold releaseLock, modify, throw. by rewrite bind_eq.
Qed.

Lemma hold_hold k c w : hold k (hold c w) = set_lock ({[k]} ∪ ({[c]} ∪ lock w)) w.
Proof. done. Qed.

(** A critical section on one key runs the same whether or not the lock of
    another key is held. *)
Lemma critical_section_frame {A} c k (body : Op World A) w :
  c ≠ k → lock_agnostic body →
  (acquireLock k ;;; try_finally body (releaseLock k)) (hold c w) =
  (fst ((acquireLock k ;;; try_finally body (releaseLock k)) w),
   hold c (snd ((acquireLock k ;;; try_finally body (releaseLock k)) w))).
Proof.
  intros Hne Hb. destruct (decide (k ∈ lock w)) as [Hin|Hout].
  - rewrite (critical_section_held k body w) by done.
    rewrite (critical_section_held k body (hold c w))
      by (unfold hold; simpl; clear Hb; set_solver).
    done.
  - rewrite (critical_section_free k body w) by done.
    rewrite (critical_section_free k body (hold c w))
      by (unfold hold; simpl; clear Hb; set_solver).
    assert (E1 : body (hold k (hold c w)) =
                 (fst (body w), set_lock ({[k]} ∪ ({[c]} ∪ lock w)) (snd (body w))))
      by (rewrite hold_hold; apply Hb).
    assert (E2 : body (hold k w) =
                 (fst (body w), set_lock ({[k]} ∪ lock w) (snd (body w))))
      by apply Hb.
    rewrite E1, E2. cbn [fst snd]. f_equal.
    unfold hold, set_lock; simpl. f_equal. clear Hb E1 E2. set_solver.
Qed.

(** C6, as stated, fails: with a compaction suspended in its save and
    holding the lock "compact", [delete] removes an entry and [create]
    inserts one, and the compaction then completes. *)
Lemma compaction_does_not_exclude_mutation :
  (∃ pending,
     compact_begin storeA = (Return pending, storeA_compacting) ∧
     fst (compact_end pending (snd (delete (JString "a") storeA_compacting))) = Return tt) ∧
  "compact"%string ∈ lock storeA_compacting ∧
  data storeA_compacting !! "a"%string = Some (mkEntry (JNumber 1) None) ∧
  fst (delete (JString "a") storeA_compacting) = Return tt ∧
  data (snd (delete (JString "a") storeA_compacting)) !! "a"%string = None ∧
  fst (create (JString "b") (JNumber 2) None storeA_compacting) = Return tt ∧
  data storeA_compacting !! "b"%string = None ∧
  data (snd (create (JString "b") (JNumber 2) None storeA_compacting)) !! "b"%string
    = Some (mkEntry (JNumber 2) None).
Proof.
  split_and!; try (vm_compute; reflexivity).
  eexists. split; vm_compute; reflexivity.
Qed.

(** C6, amended.  The lock "compact" holds back only what needs that very
    lock: while it is held, another [compact] and a [create], [read] or
    [delete] of the key "compact" leave the index as it is.  On every other
    key [create], [read] and [delete] complete, and change the state, exactly
    as they do when the lock is free. *)
Theorem compact_lock_scope (w : World) :
  ("compact"%string ∈ lock w →
     fst (compact w) = Throw (LockTimeout "compact") ∧
     data (snd (compact w)) = data w ∧
     (∀ v ttl, data (snd (create (JString "compact") v ttl w)) = data w) ∧
     data (snd (read (JString "compact") w)) = data w ∧
     data (snd (delete (JString "compact") w)) = data w) ∧
  (∀ key, key ≠ JString "compact" →
     (∀ v ttl, create key v ttl (hold "compact" w) =
               (fst (create key v ttl w), hold "compact" (snd (create key v ttl w)))) ∧
     read key (hold "compact" w) =
       (fst (read key w), hold "compact" (snd (read key w))) ∧
     delete key (hold "compact" w) =
       (fst (delete key w), hold "compact" (snd (delete key w)))).
Proof.
  split.
  - intros Hin.
    assert (Hk : (String.length "compact" ≤ maxKeyLength)%nat) by (vm_compute; lia).
    split_and!.
    + unfold compact. by rewrite critical_section_held.
    + unfold compact. by rewrite critical_section_held.
    + intros v ttl. unfold create.
      rewrite (bind_Return _ _ _ _ _ (validateKey_ok "compact" w Hk)), bind_eq.
      destruct (validateValue v w) as [rv wv] eqn:Ev.
      apply validateValue_inv in Ev as [-> [-> | [-> Hv]]]; [done|].
      cbv zeta. by rewrite critical_section_held.
    + unfold read. rewrite (bind_Return _ _ _ _ _ (validateKey_ok "compact" w Hk)).
      by rewrite critical_section_held.
    + unfold delete. rewrite (bind_Return _ _ _ _ _ (validateKey_ok "compact" w Hk)).
      by rewrite critical_section_held.
  - intros key Hkey.
    assert (Hvk : (∀ w0, validateKey key w0 = (Throw InvalidKey, w0)) ∨
                  ∃ k, k ≠ "compact"%string ∧ ∀ w0, validateKey key w0 = (Return k, w0)).
    { unfold validateKey. destruct key; auto.
      destruct (maxKeyLength <? String.length s)%nat; auto.
      right. exists s. split; [congruence|done]. }
    split_and!.
    + intros v ttl. unfold create. rewrite !(bind_eq (validateKey key)).
      destruct Hvk as [E | (k & Hne & E)]; rewrite !E; [done|].
      rewrite !(bind_eq (validateValue v)). unfold validateValue.
      destruct (maxValueSize <? byteLength (stringify v)); [done|].
      unfold ret. cbv zeta.
      apply critical_section_frame; [done | apply create_body_lock_agnostic].
    + unfold read. rewrite !(bind_eq (validateKey key)).
      destruct Hvk as [E | (k & Hne & E)]; rewrite !E; [done|].
      apply critical_section_frame; [done | apply read_try_lock_agnostic].
    + unfold delete. rewrite !(bind_eq (validateKey key)).
      destruct Hvk as [E | (k & Hne & E)]; rewrite !E; [done|].
      apply critical_section_frame; [done | apply delete_try_lock_agnostic].
Qed.

Lemma compact_lock_scope_witness :
  data (snd (read (JString "compact") storeA_compacting)) = data storeA_compacting ∧
  delete (JString "a") (hold "compact" storeA) =
    (fst (delete (JString "a") storeA), hold "compact" (snd (delete (JString "a") storeA))).
Proof.
  assert (Hheld : "compact"%string ∈ lock storeA_compacting) by (vm_compute; reflexivity).
  assert (Hkey : JString "a" ≠ JString "compact") by discriminate.
  split.
  - exact (proj1 (proj2 (proj2 (proj2 (proj1 (compact_lock_scope storeA_compacting) Hheld))))).
  - exact (proj2 (proj2 (proj2 (compact_lock_scope storeA) (JString "a") Hkey))).
Defined.

(** ** Saving and loading again *)

Lemma loadData_loop now l w :
  NoDup l.*1 →
  (∀ k, k ∈ l.*1 → data w !! k = None) →
  currentSize w = totalSize (data w) →
  ∃ D, for_each l (loadData_entry now) w
         = (Return tt, set_currentSize (totalSize D) (set_data D w)) ∧
       ∀ k item, D !! k = Some item ↔
                 data w !! k = Some item ∨ ((k, item) ∈ l ∧ isLive now item = true).
Proof.
  revert w. induction l as [|[k0 e0] l IH]; intros w Hnd Hfresh Hsize.
  - exists (data w). split.
    + simpl. unfold ret. f_equal. destruct w; simpl in *. by subst.
    + intros k item. set_solver.
  - apply NoDup_cons in Hnd as [Hk0 Hnd]. simpl in Hk0.
    assert (Hnone : data w !! k0 = None) by (apply Hfresh, elem_of_cons; by left).
    assert (Hrest : ∀ k, k ∈ l.*1 → data w !! k = None)
      by (intros k Hk; apply Hfresh, elem_of_cons; by right).
    simpl. rewrite bind_eq. unfold loadData_entry at 1. cbn [fst snd].
    destruct (isLive now e0) eqn:Hlive; run.
    + destruct (IH (addCurrentSize (estimateEntrySize k0 (value e0)) (data_set k0 e0 w)))
        as (D & -> & HD); [done| | |].
      * intros k Hk. simpl. rewrite lookup_insert_ne; [by apply Hrest|].
        intros ->. done.
      * simpl. rewrite totalSize_insert by done. lia.
      * exists D. split; [done|]. intros k item. rewrite HD. simpl.
        rewrite lookup_insert_Some, elem_of_cons. clear IH HD. naive_solver.
    + destruct (IH w) as (D & -> & HD); [done|done|done|].
      exists D. split; [done|]. intros k item. rewrite HD, elem_of_cons.
      split; intros [?|[Hin ?]]; auto.
      destruct Hin as [[= -> ->]|?]; [congruence|auto].
Qed.

Lemma loadData_Document w fileData :
  file w = Some (Document fileData) →
  fileSize (Document fileData) ≤ maxFileSize w →
  ∃ D, loadData w = (Return tt, set_currentSize (totalSize D) (set_data D w)) ∧
       ∀ k item, D !! k = Some item ↔
                 fileData !! k = Some item ∧ isLive (clock w) item = true.
Proof.
  intros Hf Hq. unfold loadData, try_catch. rewrite bind_eq. unfold gets at 1. rewrite Hf.
  rewrite bind_eq. unfold gets at 1. rewrite bind_eq.
  destruct (Z.ltb_spec (maxFileSize w) (fileSize (Document fileData))); [lia|].
  unfold when at 1, ret at 1. rewrite bind_eq. unfold gets at 1.
  do 2 (rewrite bind_eq; unfold modify at 1).
  destruct (loadData_loop (clock w) (map_to_list fileData)
              (set_currentSize 0 (set_data ∅ w))) as (D & -> & HD).
  - apply NoDup_fst_map_to_list.
  - intros k _. apply lookup_empty.
  - simpl. by rewrite totalSize_empty.
  - exists D. split; [done|]. intros k item. rewrite HD. simpl.
    rewrite lookup_empty, elem_of_map_to_list. naive_solver.
Qed.

Lemma initialize_Document w fileData :
  file w = Some (Document fileData) →
  fileLocked w = false →
  fileSize (Document fileData) ≤ maxFileSize w →
  ∃ D, initialize w
         = (Return tt,
            set_currentSize (totalSize D)
              (set_data D (set_lockInstance true (set_fileLocked true w)))) ∧
       ∀ k item, D !! k = Some item ↔
                 fileData !! k = Some item ∧ isLive (clock w) item = true.
Proof.
  intros Hf Hl Hq. unfold initialize, try_catch.
  rewrite bind_eq. unfold gets at 1. rewrite bind_eq, Hf. unfold ret at 1.
  rewrite bind_eq. unfold gets at 1. rewrite bind_eq, Hl. unfold when at 1, ret at 1.
  do 2 (rewrite bind_eq; unfold modify at 1).
  destruct (loadData_Document (set_lockInstance true (set_fileLocked true w)) fileData)
    as (D & -> & HD); [done..|].
  by exists D.
Qed.

Lemma cleanup_clean w :
  isDirty w = false →
  fst (cleanup w) = Return tt ∧
  file (snd (cleanup w)) = file w ∧ clock (snd (cleanup w)) = clock w ∧
  ((fileLocked w = true → lockInstance w = true) → fileLocked (snd (cleanup w)) = false).
Proof.
  intros Hd. unfold cleanup. run. rewrite Hd. simpl.
  destruct (lockInstance w); simpl; split_and!; try done.
  destruct (fileLocked w); [|done]. intros H. by specialize (H eq_refl).
Qed.



(** C8, as stated, fails.  A save succeeds when the sum of the estimates,
    which count every expiry as [null], is within the maximum; the file it
    wrote holds the real expiries and can be larger than the maximum, and
    then the next [initialize] throws QuotaExceeded.  And an entry with
    expiry 0 is kept by [loadData] although 0 lies before the load time. *)
Lemma reopen_does_not_reproduce :
  (fst (saveData store35) = Return tt ∧
   data store35 !! "a"%string = Some (mkEntry (JNumber 1) (Some (T0 + 100000))) ∧
   fst (reopen opts35 0 (snd (saveData store35))) = Throw QuotaExceeded ∧
   data (snd (reopen opts35 0 (snd (saveData store35)))) !! "a"%string = None) ∧
  (fst (saveData storeZ) = Return tt ∧
   fst (reopen (mkOptions None None) 5000 (snd (saveData storeZ))) = Return tt ∧
   data (snd (reopen (mkOptions None None) 5000 (snd (saveData storeZ)))) !! "k"%string
     = Some (mkEntry (JNumber 1) (Some 0))).
Proof. vm_compute. split_and!; reflexivity. Qed.

(** A key named [__proto__] never reaches the file. *)
Lemma saved_file_has_no_proto_key :
  fst (create (JString "__proto__") (JNumber 1) None store0) = Return tt ∧
  data storeP !! "__proto__"%string = Some (mkEntry (JNumber 1) None) ∧
  file storeP = Some (Document ∅).
Proof. vm_compute. split_and!; reflexivity. Qed.

(** C8, amended.  After a successful save, closing the store and
    initializing a new one on the same file succeeds provided the file that
    was written is no larger than the new store's maximum.  The new index
    then holds, for every key other than [__proto__], exactly the saved
    entries that have no expiry, expiry 0 or an expiry after the load time,
    with their values and expiries, and the new running total is the sum of
    the estimates of the entries of the new index. *)
Theorem reopen_after_save (w w1 : World) (options : Options) (elapsed : Z) :
  saveData w = (Return tt, w1) →
  (fileLocked w1 = true → lockInstance w1 = true) →
  (∀ content, file w1 = Some content →
              fileSize content ≤ orDefault (optMaxFileSize options) (1024 * 1024 * 1024)) →
  ∃ w2, reopen options elapsed w1 = (Return tt, w2) ∧
        (∀ k item, k ≠ "__proto__"%string →
           (data w2 !! k = Some item ↔
            data w !! k = Some item ∧
            (expiry item = None ∨ expiry item = Some 0 ∨
             ∃ t, expiry item = Some t ∧ clock w + elapsed < t))) ∧
        currentSize w2 = totalSize (data w2).
Proof.
  intros Hsave Hlock Hsize.
  apply saveData_inv in Hsave as (_ & _ & Hclock & _ & _ & Hok & _).
  destruct (Hok eq_refl) as (_ & _ & Hdirty & Hfile). clear Hok.
  destruct (cleanup_clean w1 Hdirty) as (_ & Hf & Hc & Hl). specialize (Hl Hlock).
  unfold reopen.
  destruct (initialize_Document
              (KVStore_new options (advance elapsed (snd (cleanup w1))))
              (base.delete "__proto__"%string (data w)))
    as (D & -> & HD).
  - simpl. by rewrite Hf.
  - done.
  - exact (Hsize _ Hfile).
  - eexists. split; [reflexivity|]. simpl. split; [|done].
    intros k item Hk. rewrite HD, lookup_delete_Some, isLive_cases. simpl.
    rewrite Hc, Hclock. naive_solver.
Qed.

Lemma reopen_after_save_witness :
  ∃ w2, reopen (mkOptions None None) 0 (snd (saveData storeA)) = (Return tt, w2) ∧
        (∀ k item, k ≠ "__proto__"%string →
           (data w2 !! k = Some item ↔
            data storeA !! k = Some item ∧
            (expiry item = None ∨ expiry item = Some 0 ∨
             ∃ t, expiry item = Some t ∧ clock storeA + 0 < t))) ∧
        currentSize w2 = totalSize (data w2).
Proof.
  apply (reopen_after_save storeA (snd (saveData storeA)) (mkOptions None None) 0).
  - vm_compute. reflexivity.
  - intros _. vm_compute. reflexivity.
  - intros content Hc.
    assert (Hf : file (snd (saveData storeA)) = Some (Document (data storeA)))
      by (vm_compute; reflexivity).
    rewrite Hf in Hc. injection Hc as <-. vm_compute. discriminate.
Defined.

(** ** The quota guard of batchCreate *)

Lemma validateKey_passes it k w :
  passesValidation it = Some k → validateKey it.1.1 w = (Return k, w).
Proof.
  unfold passesValidation, validateKey. destruct it.1.1; try done.
  destruct (maxKeyLength <? String.length s)%nat; [done|].
  destruct (maxValueSize <? byteLength (stringify it.1.2)); [done|]. by intros [= ->].
Qed.

Lemma validateValue_passes it k w :
  passesValidation it = Some k → validateValue it.1.2 w = (Return tt, w).
Proof.
  unfold passesValidation, validateValue. destruct it.1.1; try done.
  destruct (maxKeyLength <? String.length s)%nat; [done|].
  by destruct (maxValueSize <? byteLength (stringify it.1.2)).
Qed.

Lemma validation_fails it w :
  passesValidation it = None →
  (∃ e, validateKey it.1.1 w = (Throw e, w)) ∨
  (∃ k e, validateKey it.1.1 w = (Return k, w) ∧ validateValue it.1.2 w = (Throw e, w)).
Proof.
  unfold passesValidation, validateKey, validateValue. destruct it.1.1; eauto.
  destruct (maxKeyLength <? String.length s)%nat; eauto.
  destruct (maxValueSize <? byteLength (stringify it.1.2)); [eauto|done].
Qed.

(** One turn of the validation loop: the size of an item is added to the
    sum as soon as the item has passed validation, before its key is looked
    up in the index. *)
Lemma batch_validate_run it L w :
  batch_validate it (L, w) =
  (Return tt,
   (match passesValidation it with
    | Some k =>
        if hasLive k w
        then push_failedKey it.1.1 (add_totalNewSize (estimateEntrySize k it.1.2) L)
        else push_validItem (k, it.1.2, it.2)
               (add_totalNewSize (estimateEntrySize k it.1.2) L)
    | None => push_failedKey it.1.1 L
    end, w)).
Proof.
  unfold batch_validate, try_catch. rewrite bind_eq. unfold lift at 1. cbn [fst snd].
  destruct (passesValidation it) as [k|] eqn:Hp.
  - rewrite (validateKey_passes it k w Hp), bind_eq. unfold lift at 1. cbn [fst snd].
    rewrite (validateValue_passes it k w Hp). cbv zeta.
    unfold local, modify, gets, bind, hasLive. cbn [fst snd].
    destruct (data w !! k) as [existing|]; [|done].
    by destruct (isLive (clock w) existing).
  - destruct (validation_fails it w Hp) as [(e & ->) | (k & e & -> & Hv)]; [done|].
    rewrite bind_eq. unfold lift at 1. cbn [fst snd]. by rewrite Hv.
Qed.

Lemma batch_validate_total items L w :
  ∃ L', for_each items batch_validate (L, w) = (Return tt, (L', w)) ∧
        totalNewSize L' = totalNewSize L + validatedSize items ∧
        locks L' = locks L.
Proof.
  revert L. induction items as [|it items IH]; intros L; simpl.
  - exists L. split_and!; [done|lia|done].
  - rewrite bind_eq, batch_validate_run.
    match goal with |- context [for_each items batch_validate (?L1, w)] =>
      destruct (IH L1) as (L2 & -> & Ht & Hl) end.
    exists L2. split; [done|]. rewrite Ht, Hl.
    destruct (passesValidation it) as [k|]; [destruct (hasLive k w)|]; simpl; split; (lia || done).
Qed.

(** The [try]/[finally] of [batchCreate] never throws QuotaExceeded. *)
Lemma batch_critical_section_error L w :
  fst (try_finally batch_try batch_release (L, w)) ≠ Throw QuotaExceeded.
Proof.
  unfold try_finally, batch_try. rewrite bind_eq. unfold gets at 1. cbn [fst snd].
  rewrite bind_eq.
  assert (Hacq : ∀ valid L0 w0,
             fst (for_each valid batch_acquire (L0, w0)) ≠ Throw QuotaExceeded).
  { induction valid as [|it valid IH]; intros L0 w0; simpl; [done|].
    rewrite bind_eq. unfold batch_acquire at 1. rewrite bind_eq.
    unfold lift at 1. cbn [fst snd].
    destruct (decide (it.1.1 ∈ lock w0)) as [Hin|Hout].
    - by rewrite acquireLock_held.
    - rewrite acquireLock_free by done. unfold local, modify. cbn [fst snd]. apply IH. }
  specialize (Hacq (validItems L) L w).
  destruct (for_each (validItems L) batch_acquire (L, w)) as [[[]|e] [L1 w1]].
  - rewrite bind_eq.
    destruct (batch_insert_loop (validItems L) L1 w1) as (w2 & -> & _).
    unfold lift, scheduleSave. run. by rewrite batch_release_run.
  - rewrite batch_release_run. simpl in *. done.
Qed.

(** What the guard sums: every item that passed validation. *)
Lemma batchCreate_quota_guard items w :
  Z.of_nat (length items) ≤ maxBatchSize w →
  fst (batchCreate items w) = Throw QuotaExceeded ↔
  maxFileSize w < currentSize w + validatedSize items.
Proof.
  intros Hlen. unfold batchCreate. rewrite bind_eq. unfold gets at 1.
  rewrite bind_eq. destruct (Z.ltb_spec (maxBatchSize w) (Z.of_nat (length items))); [lia|].
  unfold when at 1, ret at 1. unfold with_locals. rewrite bind_eq.
  destruct (batch_validate_total items (mkLocals [] [] 0 ∅) w) as (L1 & -> & Ht & _).
  simpl in Ht. rewrite Z.add_0_l in Ht.
  unfold gets at 1 2 3. rewrite !bind_eq. cbn [fst snd]. rewrite Ht.
  destruct (Z.ltb_spec (maxFileSize w) (currentSize w + validatedSize items)) as [Hq|Hq].
  - done.
  - unfold when at 1, ret at 1. rewrite bind_eq.
    pose proof (batch_critical_section_error L1 w) as Hne.
    destruct (try_finally batch_try batch_release (L1, w)) as [[[]|e] [L2 w2]]; simpl in *.
    + split; [done|lia].
    + split; [congruence|lia].
Qed.

(** C4. The guard of [batchCreate] counts an item whose key collides with
    an unexpired entry: a batch whose only item collides, and so has no
    surviving candidate at all, is rejected with QuotaExceeded although the
    current size alone is within the maximum. *)
Theorem batchCreate_quota_counts_collisions :
  data store40 !! "a"%string = Some (mkEntry (JNumber 1) None) ∧
  currentSize store40 = 31 ∧ maxFileSize store40 = 40 ∧
  survivingSize store40 [(JString "a", JNumber 2, None)] = 0 ∧
  validatedSize [(JString "a", JNumber 2, None)] = 31 ∧
  fst (batchCreate [(JString "a", JNumber 2, None)] store40) = Throw QuotaExceeded.
Proof. vm_compute. split_and!; reflexivity. Qed.

(** ** The same key twice in one batch *)

(** C5. When a batch holds the same key twice, both items pass validation
    and both reach the acquisition loop, which takes the lock of the key for
    the first and then polls for the second a lock that the batch itself
    holds: after [maxAttempts] polls [batchCreate] throws LockTimeout, the
    lock is released, nothing has been inserted and no list of failed keys
    is returned. *)
Theorem batchCreate_duplicate_key_times_out
    (w : World) (k : string) (v1 v2 : JSON) (ttl1 ttl2 : option Z) :
  (String.length k ≤ maxKeyLength)%nat →
  byteLength (stringify v1) ≤ maxValueSize →
  byteLength (stringify v2) ≤ maxValueSize →
  2 ≤ maxBatchSize w →
  currentSize w + (estimateEntrySize k v1 + estimateEntrySize k v2) ≤ maxFileSize w →
  hasLive k w = false →
  k ∉ lock w →
  fst (batchCreate [(JString k, v1, ttl1); (JString k, v2, ttl2)] w)
    = Throw (LockTimeout k) ∧
  data (snd (batchCreate [(JString k, v1, ttl1); (JString k, v2, ttl2)] w)) = data w ∧
  lock (snd (batchCreate [(JString k, v1, ttl1); (JString k, v2, ttl2)] w)) = lock w.
Proof.
  intros Hk Hv1 Hv2 Hlen Hq Hlive Hlock.
  assert (Hp : ∀ v ttl, byteLength (stringify v) ≤ maxValueSize →
                        passesValidation (JString k, v, ttl) = Some k).
  { intros v ttl Hv. unfold passesValidation. simpl.
    destruct (Nat.ltb_spec maxKeyLength (String.length k)); [lia|].
    destruct (Z.ltb_spec maxValueSize (byteLength (stringify v))); [lia|done]. }
  assert (Hval : for_each [(JString k, v1, ttl1); (JString k, v2, ttl2)] batch_validate
                   (mkLocals [] [] 0 ∅, w)
                 = (Return tt,
                    (mkLocals [] [(k, v1, ttl1); (k, v2, ttl2)]
                       (estimateEntrySize k v1 + estimateEntrySize k v2) ∅, w))).
  { simpl for_each. rewrite bind_eq, batch_validate_run, (Hp v1 ttl1 Hv1), Hlive.
    rewrite bind_eq, batch_validate_run, (Hp v2 ttl2 Hv2), Hlive. done. }
  assert (Htry : try_finally batch_try batch_release
                   (mkLocals [] [(k, v1, ttl1); (k, v2, ttl2)]
                       (estimateEntrySize k v1 + estimateEntrySize k v2) ∅, w)
                 = (Throw (LockTimeout k),
                    (mkLocals [] [(k, v1, ttl1); (k, v2, ttl2)]
                       (estimateEntrySize k v1 + estimateEntrySize k v2) ({[k]} ∪ ∅),
                     set_lock (({[k]} ∪ lock w) ∖ ({[k]} ∪ ∅))
                       (set_clock (clock w + 1000) (hold k w))))).
  { unfold try_finally, batch_try. rewrite bind_eq. unfold gets at 1. cbn [fst snd].
    simpl validItems. simpl for_each. rewrite !bind_eq.
    unfold batch_acquire at 1. rewrite bind_eq. unfold lift at 1. cbn [fst snd].
    rewrite acquireLock_free by done. unfold local at 1, modify at 1. cbn [fst snd].
    rewrite bind_eq. unfold batch_acquire at 1. rewrite bind_eq. unfold lift at 1.
    cbn [fst snd]. rewrite acquireLock_held by (simpl; set_solver).
    by rewrite batch_release_run. }
  assert (Hrun : batchCreate [(JString k, v1, ttl1); (JString k, v2, ttl2)] w
                 = (Throw (LockTimeout k),
                    set_lock (({[k]} ∪ lock w) ∖ ({[k]} ∪ ∅))
                       (set_clock (clock w + 1000) (hold k w)))); last first.
  { rewrite Hrun. simpl. split_and!; [done..|]. clear -Hlock. set_solver. }
  unfold batchCreate, with_locals.
  rewrite (bind_Return (gets maxBatchSize) _ w (maxBatchSize w) w eq_refl). cbv beta.
  match goal with |- context [?a <? ?b] => destruct (Z.ltb_spec a b) end;
    [simpl in *; lia|].
  rewrite (bind_Return (when false _) _ w tt w eq_refl). cbv beta.
  rewrite (bind_Return _ _ _ _ _ Hval). cbv beta.
  do 3 (erewrite bind_Return; [|reflexivity]; cbv beta).
  cbn [fst snd totalNewSize currentSize maxFileSize].
  destruct (Z.ltb_spec (maxFileSize w)
              (currentSize w + (estimateEntrySize k v1 + estimateEntrySize k v2))); [lia|].
  erewrite bind_Return; [|reflexivity]. cbv beta.
  by rewrite (bind_Throw _ _ _ _ _ Htry).
Qed.

Lemma batchCreate_duplicate_key_times_out_witness :
  fst (batchCreate [(JString "a", JNumber 1, None); (JString "a", JNumber 2, None)] store0)
    = Throw (LockTimeout "a") ∧
  data (snd (batchCreate [(JString "a", JNumber 1, None); (JString "a", JNumber 2, None)] store0))
    = data store0 ∧
  lock (snd (batchCreate [(JString "a", JNumber 1, None); (JString "a", JNumber 2, None)] store0))
    = lock store0.
Proof.
  apply (batchCreate_duplicate_key_times_out store0 "a" (JNumber 1) (JNumber 2) None None).
  - vm_compute. lia.
  - vm_compute. discriminate.
  - vm_compute. discriminate.
  - vm_compute. discriminate.
  - vm_compute. discriminate.
  - vm_compute. reflexivity.
  - apply (bool_decide_unpack _). vm_compute. exact I.
Defined.


(** * Further properties of the store *)

(** ** create *)

Lemma saveData_Return_iff w :
  fst (saveData w) = Return tt ↔
  totalSize (data w) ≤ maxFileSize w ∧ writeFault w = None ∧ renameFault w = None.
Proof.
  split.
  - unfold saveData. rewrite bind_eq, saveData_prepare_run.
    destruct (Z.ltb_spec (maxFileSize w) (totalSize (data w))); [by simpl|].
    unfold saveData_commit, fs_writeFile_tmp, fs_rename_tmp, fs_unlink_tmp. run.
    destruct (writeFault w); simpl; [done|].
    destruct (renameFault w); simpl; [|done].
    by destruct (unlinkFault w).
  - intros (Hq & Hw & Hr). by rewrite saveData_ok.
Qed.

(** [create] up to its save. *)
Lemma create_reaches_save k v ttl w :
  (String.length k ≤ maxKeyLength)%nat →
  byteLength (stringify v) ≤ maxValueSize →
  k ∉ lock w →
  currentSize w + estimateEntrySize k v ≤ maxFileSize w →
  hasLive k w = false →
  create (JString k) v ttl w =
  match awaitedSave (addCurrentSize (estimateEntrySize k v)
                       (data_set k (mkEntry v (computeExpiry (clock w) ttl)) (hold k w))) with
  | (Return a, w2) => (Return a, set_lock (lock w2 ∖ {[k]}) (set_savePromise None w2))
  | (Throw e, w2) =>
      (Throw (PersistenceFailed e),
       set_lock (lock w2 ∖ {[k]})
         (addCurrentSize (- estimateEntrySize k v)
            (data_delete k (set_savePromise None w2))))
  end.
Proof.
  intros Hk Hv Hl Hq Hlive. rewrite create_run by done.
  rewrite critical_section_free by done.
  unfold try_catch. rewrite create_try_run.
  change (maxFileSize (hold k w)) with (maxFileSize w).
  change (currentSize (hold k w)) with (currentSize w).
  change (hasLive k (hold k w)) with (hasLive k w).
  change (clock (hold k w)) with (clock w).
  destruct (Z.ltb_spec (maxFileSize w) (currentSize w + estimateEntrySize k v)); [lia|].
  rewrite Hlive.
  match goal with |- context [awaitedSave ?x] =>
    destruct (awaitedSave x) as [[[]|e] w2] end; done.
Qed.

Lemma create_Return_full key v ttl w w' :
  create key v ttl w = (Return tt, w') →
  ∃ k, key = JString k ∧
       (String.length k ≤ maxKeyLength)%nat ∧
       byteLength (stringify v) ≤ maxValueSize ∧
       (k ∉ lock w) ∧
       currentSize w + estimateEntrySize k v ≤ maxFileSize w ∧
       hasLive k w = false.
Proof.
  unfold create. rewrite bind_eq.
  destruct (validateKey key w) as [rk wk] eqn:Ek.
  apply validateKey_inv in Ek as [-> [-> | (k & -> & -> & Hlen)]]; [done|].
  rewrite bind_eq. destruct (validateValue v w) as [rv wv] eqn:Ev.
  apply validateValue_inv in Ev as [-> [-> | [-> Hv]]]; [done|].
  cbv zeta.
  destruct (decide (k ∈ lock w)) as [Hin|Hout].
  { by rewrite critical_section_held. }
  rewrite critical_section_free by done.
  unfold try_catch. rewrite create_try_run. simpl.
  destruct (Z.ltb_spec (maxFileSize w) (currentSize w + estimateEntrySize k v)); [done|].
  replace (hasLive k (hold k w)) with (hasLive k w) by done.
  destruct (hasLive k w) eqn:Hlive; [done|].
  intros _. by exists k.
Qed.



(** ** read *)

Lemma read_unlocked k w :
  (String.length k ≤ maxKeyLength)%nat → k ∉ lock w →
  read (JString k) w =
  match data w !! k with
  | None => (Throw (KeyNotFound false), w)
  | Some item =>
      if isExpired (clock w) item then
        (Throw (KeyNotFound true),
         set_saveTimeout (Some (clock w + 1000)) (set_isDirty true (data_delete k w)))
      else (Return (value item), w)
  end.
Proof.
  intros Hk Hl. unfold read. rewrite (bind_Return _ _ _ _ _ (validateKey_ok k w Hk)).
  rewrite critical_section_free, read_try_run by done.
  change (data (hold k w)) with (data w). change (clock (hold k w)) with (clock w).
  destruct (data w !! k) as [item|]; [destruct (isExpired (clock w) item)|];
    cbn [fst snd]; try by rewrite release_hold.
  f_equal. destruct w; unfold hold, set_lock, set_saveTimeout, set_isDirty, data_delete,
    set_data; simpl in *. f_equal. by apply release_after_acquire.
Qed.

(** What a normal completion of [create] leaves behind, for the operations
    that follow it. *)
Lemma create_Return_state key v ttl w w1 :
  create key v ttl w = (Return tt, w1) →
  ∃ k, key = JString k ∧ (String.length k ≤ maxKeyLength)%nat ∧ (k ∉ lock w1) ∧
       data w1 !! k = Some (mkEntry v (computeExpiry (clock w) ttl)) ∧
       clock w1 = clock w.
Proof.
  intros E. destruct (create_Return_full _ _ _ _ _ E) as (k & -> & Hk & _ & Hl & _).
  apply create_Return_inv in E as (k' & [= <-] & Hd & _ & _ & _ & _ & Hlk & Hc).
  exists k. split_and!; try done.
  - by rewrite Hlk.
  - by rewrite Hd, lookup_insert_eq.
Qed.

(** X2. After a [create] that completed, [read] of the same key returns the
    value that was given, and changes nothing, at any instant before the
    entry's expiry: always when ttl is absent or 0, and for less than
    ttl*1000 milliseconds otherwise. *)
Theorem read_after_create (w w1 : World) (key v : JSON) (ttl : option Z) (elapsed : Z) :
  create key v ttl w = (Return tt, w1) →
  (∀ t, ttl = Some t → t ≠ 0 → elapsed < t * 1000) →
  read key (advance elapsed w1) = (Return v, advance elapsed w1).
Proof.
  intros E Hin. apply create_Return_state in E as (k & -> & Hk & Hl & Hd & Hc).
  rewrite read_unlocked by done.
  change (data (advance elapsed w1)) with (data w1). rewrite Hd.
  replace (isExpired (clock (advance elapsed w1)) _) with false; [done|].
  unfold isExpired; simpl. rewrite Hc. destruct ttl as [t|]; simpl; [|done].
  destruct (Z.eqb_spec t 0) as [->|Hne]; simpl; [done|].
  specialize (Hin t eq_refl Hne).
  destruct (Z.eqb_spec (clock w + t * 1000) 0); simpl; [done|].
  symmetry. apply Z.leb_gt. lia.
Qed.

Lemma read_after_create_witness :
  read (JString "a")
    (advance 59999 (snd (create (JString "a") (JNumber 1) (Some 60) store0)))
  = (Return (JNumber 1),
     advance 59999 (snd (create (JString "a") (JNumber 1) (Some 60) store0))).
Proof.
  apply (read_after_create store0 _ (JString "a") (JNumber 1) (Some 60) 59999).
  - vm_compute. reflexivity.
  - intros t [= <-] _. lia.
Defined.

(** X3. Once ttl*1000 milliseconds have passed since a [create] with a
    positive ttl, [read] of the key throws KeyNotFound with the "expired"
    message, deletes the entry and schedules the debounced save; a second
    [read] finds the key absent. *)
Theorem read_after_ttl_elapsed
    (w w1 : World) (key v : JSON) (t elapsed : Z) :
  create key v (Some t) w = (Return tt, w1) →
  0 ≤ clock w → 0 < t → t * 1000 ≤ elapsed →
  ∃ k w2, key = JString k ∧
          read key (advance elapsed w1) = (Throw (KeyNotFound true), w2) ∧
          data w2 = base.delete k (data w1) ∧
          isDirty w2 = true ∧ saveTimeout w2 = Some (clock w + elapsed + 1000) ∧
          read key w2 = (Throw (KeyNotFound false), w2).
Proof.
  intros E Hc0 Ht He. apply create_Return_state in E as (k & -> & Hk & Hl & Hd & Hc).
  exists k. eexists. split; [done|].
  rewrite read_unlocked by done.
  change (data (advance elapsed w1)) with (data w1). rewrite Hd.
  replace (isExpired (clock (advance elapsed w1)) _) with true.
  - split; [reflexivity|]. simpl. rewrite Hc. split_and!; try done.
    rewrite read_unlocked by done. simpl. by rewrite lookup_delete_eq.
  - unfold isExpired; simpl. rewrite Hc.
    destruct (Z.eqb_spec t 0); [lia|]. simpl.
    destruct (Z.eqb_spec (clock w + t * 1000) 0); [lia|]. simpl.
    symmetry. apply Z.leb_le. lia.
Qed.

Lemma read_after_ttl_elapsed_witness :
  ∃ k w2, JString "a" = JString k ∧
          read (JString "a")
            (advance 1000 (snd (create (JString "a") (JNumber 1) (Some 1) store0)))
            = (Throw (KeyNotFound true), w2) ∧
          data w2 = base.delete k (data (snd (create (JString "a") (JNumber 1) (Some 1) store0))) ∧
          isDirty w2 = true ∧ saveTimeout w2 = Some (clock store0 + 1000 + 1000) ∧
          read (JString "a") w2 = (Throw (KeyNotFound false), w2).
Proof.
  apply (read_after_ttl_elapsed store0 _ (JString "a") (JNumber 1) 1 1000).
  - vm_compute. reflexivity.
  - vm_compute. discriminate.
  - lia.
  - lia.
Defined.



(** X5. A key that is not a string, or is longer than 32 characters, makes
    [create], [read] and [delete] throw InvalidKey before anything else
    happens: no lock is taken and the state is untouched.  A value whose
    serialization exceeds 16 KiB makes [create] throw ValueTooLarge in the
    same way. *)
Theorem invalid_input_is_rejected_untouched (w : World) :
  (∀ key, (∀ k, key = JString k → (maxKeyLength < String.length k)%nat) →
          (∀ v ttl, create key v ttl w = (Throw InvalidKey, w)) ∧
          read key w = (Throw InvalidKey, w) ∧
          delete key w = (Throw InvalidKey, w)) ∧
  (∀ k v ttl, (String.length k ≤ maxKeyLength)%nat →
              maxValueSize < byteLength (stringify v) →
              create (JString k) v ttl w = (Throw ValueTooLarge, w)).
Proof.
  split.
  - intros key Hkey.
    assert (E : validateKey key w = (Throw InvalidKey, w)).
    { unfold validateKey. destruct key; try done.
      specialize (Hkey s eq_refl).
      destruct (Nat.ltb_spec maxKeyLength (String.length s)); [done|lia]. }
    split_and!; [intros v ttl; unfold create | unfold read | unfold delete];
      by rewrite (bind_Throw _ _ _ _ _ E).
  - intros k v ttl Hk Hv. unfold create.
    rewrite (bind_Return _ _ _ _ _ (validateKey_ok k w Hk)).
    apply bind_Throw. unfold validateValue.
    destruct (Z.ltb_spec maxValueSize (byteLength (stringify v))); [done|lia].
Qed.

Lemma invalid_input_is_rejected_untouched_witness :
  read (JNumber 7) storeA = (Throw InvalidKey, storeA) ∧
  create (JString "aaaaaaaaaaaaaaaaaaaaaaaaaaaaaaaaa") JNull None storeA
    = (Throw InvalidKey, storeA).
Proof.
  split.
  - apply (proj1 (invalid_input_is_rejected_untouched storeA) (JNumber 7)).
    intros k Hk. discriminate Hk.
  - apply (proj1 (invalid_input_is_rejected_untouched storeA)
             (JString "aaaaaaaaaaaaaaaaaaaaaaaaaaaaaaaaa")).
    intros k [= <-]. vm_compute. lia.
Defined.

(** ** delete *)

Lemma delete_unlocked k w :
  (String.length k ≤ maxKeyLength)%nat → k ∉ lock w →
  delete (JString k) w =
  match data w !! k with
  | None => (Throw (KeyNotFound false), w)
  | Some item =>
      (if isExpired (clock w) item then Throw (KeyNotFound true) else Return tt,
       set_saveTimeout (Some (clock w + 1000)) (set_isDirty true (data_delete k w)))
  end.
Proof.
  intros Hk Hl. unfold delete. rewrite (bind_Return _ _ _ _ _ (validateKey_ok k w Hk)).
  rewrite critical_section_free, delete_try_run by done.
  change (data (hold k w)) with (data w). change (clock (hold k w)) with (clock w).
  destruct (data w !! k) as [item|]; cbn [fst snd]; [|by rewrite release_hold].
  assert (Hw : ∀ (r : Result unit),
             set_lock (lock (set_saveTimeout (Some (clock w + 1000))
                               (set_isDirty true (data_delete k (hold k w)))) ∖ {[k]})
               (set_saveTimeout (Some (clock w + 1000))
                  (set_isDirty true (data_delete k (hold k w))))
             = set_saveTimeout (Some (clock w + 1000)) (set_isDirty true (data_delete k w))).
  { intros _. unfold hold, set_lock, set_saveTimeout, set_isDirty, data_delete, set_data.
    simpl. f_equal. by apply release_after_acquire. }
  destruct (isExpired (clock w) item); cbn [fst snd]; by rewrite (Hw (Return tt)).
Qed.

(** X6. For a valid key whose lock is free, [delete] throws KeyNotFound and
    changes nothing when the key is absent; otherwise it removes the entry,
    marks the store dirty and restarts the one-second save timer, and then
    returns, or, when the entry had a non-zero expiry at or before now,
    throws KeyNotFound with the "expired" message.  It never touches the
    running total or the backing file. *)
Theorem delete_outcomes (w : World) (k : string) :
  (String.length k ≤ maxKeyLength)%nat →
  k ∉ lock w →
  (data w !! k = None → delete (JString k) w = (Throw (KeyNotFound false), w)) ∧
  (∀ item,
     data w !! k = Some item →
     (expiry item = None ∨ expiry item = Some 0 ∨ ∃ t, expiry item = Some t ∧ clock w < t) →
     ∃ w', delete (JString k) w = (Return tt, w') ∧
           data w' = base.delete k (data w) ∧
           isDirty w' = true ∧ saveTimeout w' = Some (clock w + 1000) ∧
           currentSize w' = currentSize w ∧ file w' = file w ∧ lock w' = lock w) ∧
  (∀ item t,
     data w !! k = Some item → expiry item = Some t → t ≠ 0 → t ≤ clock w →
     ∃ w', delete (JString k) w = (Throw (KeyNotFound true), w') ∧
           data w' = base.delete k (data w) ∧
           isDirty w' = true ∧ saveTimeout w' = Some (clock w + 1000) ∧
           currentSize w' = currentSize w ∧ file w' = file w ∧ lock w' = lock w).
Proof.
  intros Hk Hl. rewrite delete_unlocked by done. split_and!.
  - by intros ->.
  - intros item -> Hlive. apply isLive_cases in Hlive.
    rewrite isExpired_not_isLive, Hlive. eexists. split; [reflexivity|]. done.
  - intros item t -> He Ht Hle.
    rewrite (proj2 (isExpired_Some (clock w) item t He)) by done.
    eexists. split; [reflexivity|]. done.
Qed.

Lemma delete_outcomes_witness :
  ∃ w', delete (JString "a") storeA = (Return tt, w') ∧
        data w' = base.delete "a"%string (data storeA) ∧
        isDirty w' = true ∧ saveTimeout w' = Some (clock storeA + 1000) ∧
        currentSize w' = currentSize storeA ∧ file w' = file storeA ∧
        lock w' = lock storeA.
Proof.
  assert (Hk : (String.length "a" ≤ maxKeyLength)%nat) by (vm_compute; lia).
  assert (Hl : "a"%string ∉ lock storeA) by (apply (bool_decide_unpack _); vm_compute; exact I).
  apply (proj1 (proj2 (delete_outcomes storeA "a" Hk Hl)) (mkEntry (JNumber 1) None)).
  - vm_compute. reflexivity.
  - left. reflexivity.
Defined.

(** X7. After a [delete] that completed, [read] of the same key throws
    KeyNotFound and a second [delete] throws KeyNotFound; neither changes
    the state. *)
Theorem read_and_delete_after_delete (w w1 : World) (key : JSON) :
  delete key w = (Return tt, w1) →
  read key w1 = (Throw (KeyNotFound false), w1) ∧
  delete key w1 = (Throw (KeyNotFound false), w1).
Proof.
  intros E.
  assert (H : ∃ k, key = JString k ∧ (String.length k ≤ maxKeyLength)%nat ∧ (k ∉ lock w)).
  { revert E. unfold delete. rewrite bind_eq.
    destruct (validateKey key w) as [rk wk] eqn:Ek.
    apply validateKey_inv in Ek as [-> [-> | (k & -> & -> & Hlen)]]; [done|].
    destruct (decide (k ∈ lock w)) as [Hin|Hout]; [by rewrite critical_section_held|].
    by exists k. }
  destruct H as (k & -> & Hk & Hl).
  apply delete_Return_inv in E as (k' & item & [= <-] & _ & _ & Hd & _ & _ & _ & Hlk).
  rewrite <- Hlk in Hl.
  rewrite read_unlocked, delete_unlocked by done. by rewrite Hd, lookup_delete_eq.
Qed.

Lemma read_and_delete_after_delete_witness :
  read (JString "a") (snd (delete (JString "a") storeA))
    = (Throw (KeyNotFound false), snd (delete (JString "a") storeA)) ∧
  delete (JString "a") (snd (delete (JString "a") storeA))
    = (Throw (KeyNotFound false), snd (delete (JString "a") storeA)).
Proof.
  apply (read_and_delete_after_delete storeA _ (JString "a")).
  vm_compute. reflexivity.
Defined.

(** X8. While the lock of a key is held, [create], [read] and [delete] of
    that key poll it 100 times, ten milliseconds apart, and then throw
    LockTimeout; nothing but the clock has changed. *)
Theorem held_lock_times_out (w : World) (k : string) :
  (String.length k ≤ maxKeyLength)%nat →
  k ∈ lock w →
  (∀ v ttl, byteLength (stringify v) ≤ maxValueSize →
            create (JString k) v ttl w
              = (Throw (LockTimeout k), set_clock (clock w + 1000) w)) ∧
  read (JString k) w = (Throw (LockTimeout k), set_clock (clock w + 1000) w) ∧
  delete (JString k) w = (Throw (LockTimeout k), set_clock (clock w + 1000) w).
Proof.
  intros Hk Hl. split_and!.
  - intros v ttl Hv. unfold create.
    rewrite (bind_Return _ _ _ _ _ (validateKey_ok k w Hk)).
    rewrite (bind_Return _ _ _ _ _ (validateValue_ok v w Hv)).
    by apply critical_section_held.
  - unfold read. rewrite (bind_Return _ _ _ _ _ (validateKey_ok k w Hk)).
    by apply critical_section_held.
  - unfold delete. rewrite (bind_Return _ _ _ _ _ (validateKey_ok k w Hk)).
    by apply critical_section_held.
Qed.

Lemma held_lock_times_out_witness :
  read (JString "a") (hold "a" storeA)
    = (Throw (LockTimeout "a"), set_clock (clock (hold "a" storeA) + 1000) (hold "a" storeA)).
Proof.
  assert (Hk : (String.length "a" ≤ maxKeyLength)%nat) by (vm_compute; lia).
  assert (Hl : "a"%string ∈ lock (hold "a" storeA)) by (vm_compute; reflexivity).
  exact (proj1 (proj2 (held_lock_times_out (hold "a" storeA) "a" Hk Hl))).
Defined.

(** X9. Locks are per key: whether or not the lock of some other key is
    held, [create], [read] and [delete] of a key complete in the same way
    and make the same changes. *)
Theorem operations_ignore_other_locks (w : World) (other : string) (key : JSON) :
  key ≠ JString other →
  (∀ v ttl, create key v ttl (hold other w) =
            (fst (create key v ttl w), hold other (snd (create key v ttl w)))) ∧
  read key (hold other w) = (fst (read key w), hold other (snd (read key w))) ∧
  delete key (hold other w) = (fst (delete key w), hold other (snd (delete key w))).
Proof.
  intros Hkey.
  assert (Hvk : (∀ w0, validateKey key w0 = (Throw InvalidKey, w0)) ∨
                ∃ k, k ≠ other ∧ ∀ w0, validateKey key w0 = (Return k, w0)).
  { unfold validateKey. destruct key; auto.
    destruct (maxKeyLength <? String.length s)%nat; auto.
    right. exists s. split; [congruence|done]. }
  split_and!.
  - intros v ttl. unfold create. rewrite !(bind_eq (validateKey key)).
    destruct Hvk as [E | (k & Hne & E)]; rewrite !E; [done|].
    rewrite !(bind_eq (validateValue v)). unfold validateValue.
    destruct (maxValueSize <? byteLength (stringify v)); [done|].
    unfold ret. cbv zeta.
    apply critical_section_frame; [done | apply create_body_lock_agnostic].
  - unfold read. rewrite !(bind_eq (validateKey key)).
    destruct Hvk as [E | (k & Hne & E)]; rewrite !E; [done|].
    apply critical_section_frame; [done | apply read_try_lock_agnostic].
  - unfold delete. rewrite !(bind_eq (validateKey key)).
    destruct Hvk as [E | (k & Hne & E)]; rewrite !E; [done|].
    apply critical_section_frame; [done | apply delete_try_lock_agnostic].
Qed.

Lemma operations_ignore_other_locks_witness :
  read (JString "a") (hold "b" storeA)
  = (fst (read (JString "a") storeA), hold "b" (snd (read (JString "a") storeA))).
Proof.
  assert (Hkey : JString "a" ≠ JString "b") by discriminate.
  exact (proj1 (proj2 (operations_ignore_other_locks storeA "b" (JString "a") Hkey))).
Defined.

(** ** batchCreate *)

Lemma batch_validate_exact items L w :
  for_each items batch_validate (L, w) =
  (Return tt,
   (mkLocals (failedKeys L ++ rejected w items) (validItems L ++ survivors w items)
      (totalNewSize L + validatedSize items) (locks L), w)).
Proof.
  revert L. induction items as [|it items IH]; intros L.
  - simpl. unfold ret. destruct L; simpl. by rewrite !app_nil_r, Z.add_0_r.
  - simpl for_each. rewrite bind_eq, batch_validate_run, IH.
    unfold rejected, survivors, validatedSize, survives, validKey. simpl.
    destruct (passesValidation it) as [k|] eqn:Hp; [destruct (hasLive k w)|]; simpl.
    all: do 3 f_equal; rewrite ?Hp; first [lia | by rewrite <- app_assoc].
Qed.

(** The acquisition loop completes exactly when the keys are pairwise
    distinct and none of them is locked. *)
Lemma batch_acquire_ok valid L w :
  NoDup (batch_keys valid) →
  (∀ k, k ∈ batch_keys valid → k ∉ lock w) →
  for_each valid batch_acquire (L, w) =
  (Return tt,
   (mkLocals (failedKeys L) (validItems L) (totalNewSize L)
      (list_to_set (batch_keys valid) ∪ locks L),
    set_lock (list_to_set (batch_keys valid) ∪ lock w) w)).
Proof.
  revert L w. induction valid as [|it valid IH]; intros L w Hnd Hfree.
  - simpl. unfold ret. do 2 f_equal.
    + destruct L; simpl. f_equal. set_solver.
    + destruct w; unfold set_lock; simpl. f_equal. set_solver.
  - simpl in Hnd. apply NoDup_cons in Hnd as [Hk Hnd].
    assert (Hit : it.1.1 ∉ lock w) by (apply Hfree; simpl; apply elem_of_cons; by left).
    simpl for_each. rewrite bind_eq. unfold batch_acquire at 1. rewrite bind_eq.
    unfold lift at 1. cbn [fst snd]. rewrite acquireLock_free by done.
    unfold local, modify. cbn [fst snd]. rewrite IH; [|done|].
    + do 2 f_equal.
      * unfold add_lock; simpl. f_equal. set_solver.
      * unfold set_lock; simpl. f_equal. set_solver.
    + intros k Hin. simpl. intros [Heq%elem_of_singleton|Hl]%elem_of_union.
      * by subst.
      * eapply Hfree; [|done]. simpl. apply elem_of_cons. by right.
Qed.

Lemma batch_acquire_Return_inv valid L w :
  fst (for_each valid batch_acquire (L, w)) = Return tt →
  NoDup (batch_keys valid) ∧ ∀ k, k ∈ batch_keys valid → k ∉ lock w.
Proof.
  revert L w. induction valid as [|it valid IH]; intros L w.
  - intros _. split; [constructor|]. intros k Hk. by apply elem_of_nil in Hk.
  - simpl for_each. rewrite bind_eq. unfold batch_acquire at 1. rewrite bind_eq.
    unfold lift at 1. cbn [fst snd].
    destruct (decide (it.1.1 ∈ lock w)) as [Hin|Hout].
    { by rewrite acquireLock_held. }
    rewrite acquireLock_free by done. unfold local, modify. cbn [fst snd].
    intros [Hnd Hfree]%IH. simpl in Hfree. split.
    + simpl. apply NoDup_cons. split; [|done].
      intros Hin. apply (Hfree _ Hin). apply elem_of_union. left. by apply elem_of_singleton.
    + intros k [->|Hin]%elem_of_cons; [done|].
      intros Hl. apply (Hfree _ Hin). apply elem_of_union. by right.
Qed.

(** Whatever its completion, the acquisition loop changes nothing but the
    lock table and the clock. *)
Lemma batch_acquire_frame valid L w r L' w' :
  for_each valid batch_acquire (L, w) = (r, (L', w')) →
  w' = set_clock (clock w') (set_lock (lock w') w).
Proof.
  revert L w. induction valid as [|it valid IH]; intros L w.
  - simpl. intros [= _ _ <-]. by destruct w.
  - simpl for_each. rewrite bind_eq. unfold batch_acquire at 1. rewrite bind_eq.
    unfold lift at 1. cbn [fst snd].
    destruct (decide (it.1.1 ∈ lock w)) as [Hin|Hout].
    + rewrite acquireLock_held by done. intros [= _ _ <-]. by destruct w.
    + rewrite acquireLock_free by done. unfold local, modify. cbn [fst snd].
      intros E. by apply IH in E.
Qed.

Lemma batch_insert_exact valid L w :
  for_each valid batch_insert (L, w) =
  (Return tt, (L, set_data (batch_inserted (clock w) valid (data w)) w)).
Proof.
  revert w. induction valid as [|it valid IH]; intros w.
  - simpl. unfold ret. by destruct w.
  - simpl for_each. rewrite bind_eq.
    unfold batch_insert at 1, lift, modify, gets, bind. cbn [fst snd]. by rewrite IH.
Qed.

Lemma batch_inserted_other now valid d k :
  k ∉ batch_keys valid → batch_inserted now valid d !! k = d !! k.
Proof.
  revert d. induction valid as [|it valid IH]; intros d Hk; [done|].
  simpl in *. apply not_elem_of_cons in Hk as [Hne Hk].
  rewrite IH by done. by rewrite lookup_insert_ne.
Qed.

Lemma batch_inserted_member now valid d it :
  NoDup (batch_keys valid) → it ∈ valid →
  batch_inserted now valid d !! it.1.1 = Some (mkEntry it.1.2 (computeExpiry now it.2)).
Proof.
  revert d. induction valid as [|x valid IH]; intros d Hnd Hin.
  - by apply elem_of_nil in Hin.
  - simpl in Hnd. apply NoDup_cons in Hnd as [Hx Hnd].
    apply elem_of_cons in Hin as [->|Hin]; simpl.
    + rewrite batch_inserted_other by done. by rewrite lookup_insert_eq.
    + by apply IH.
Qed.

Lemma batch_section_ok L w :
  NoDup (batch_keys (validItems L)) →
  (∀ k, k ∈ batch_keys (validItems L) → k ∉ lock w) →
  locks L = ∅ →
  try_finally batch_try batch_release (L, w) =
  (Return tt,
   (mkLocals (failedKeys L) (validItems L) (totalNewSize L)
      (list_to_set (batch_keys (validItems L)) ∪ locks L),
    set_saveTimeout (Some (clock w + 1000))
      (set_isDirty true
         (set_data (batch_inserted (clock w) (validItems L) (data w)) w)))).
Proof.
  intros Hnd Hfree HL. unfold try_finally, batch_try. rewrite bind_eq. unfold gets at 1.
  cbn [fst snd]. rewrite bind_eq, batch_acquire_ok by done.
  rewrite bind_eq, batch_insert_exact. unfold lift, scheduleSave. run.
  rewrite batch_release_run. simpl. do 2 f_equal.
  unfold set_lock, set_saveTimeout, set_isDirty, set_data; simpl. rewrite HL.
  destruct w; simpl in *. f_equal.
  assert (Hdisj : list_to_set (batch_keys (validItems L)) ## lock0).
  { intros k Hk%elem_of_list_to_set Hl. by apply (Hfree k). }
  clear -Hdisj. set_solver.
Qed.

Lemma batch_acquire_Throw valid L w e s :
  for_each valid batch_acquire (L, w) = (Throw e, s) → ∃ k, Throw e = @Throw unit (LockTimeout k).
Proof.
  revert L w. induction valid as [|it valid IH]; intros L w; [done|].
  simpl for_each. rewrite bind_eq. unfold batch_acquire at 1. rewrite bind_eq.
  unfold lift at 1. cbn [fst snd].
  destruct (decide (it.1.1 ∈ lock w)) as [Hin|Hout].
  - rewrite acquireLock_held by done. intros [= <- _]. eauto.
  - rewrite acquireLock_free by done. unfold local, modify. cbn [fst snd]. apply IH.
Qed.

Lemma batch_section_fail L w r L' w' :
  locks L = ∅ →
  try_finally batch_try batch_release (L, w) = (r, (L', w')) →
  r ≠ Return tt →
  w' = set_clock (clock w') w ∧ ∃ k, r = Throw (LockTimeout k).
Proof.
  intros HL E Hr. pose proof (batch_critical_section_lock L w HL) as Hlock.
  rewrite E in Hlock. simpl in Hlock. revert E.
  unfold try_finally, batch_try. rewrite bind_eq. unfold gets at 1. cbn [fst snd].
  rewrite bind_eq.
  destruct (for_each (validItems L) batch_acquire (L, w)) as [[[]|e] [L1 w1]] eqn:Eacq.
  - rewrite bind_eq, batch_insert_exact. unfold lift, scheduleSave. run.
    rewrite batch_release_run. by intros [= <- _ _].
  - rewrite batch_release_run. intros [= <- <- <-].
    pose proof (batch_acquire_frame _ _ _ _ _ _ Eacq) as Hw1. split.
    + rewrite Hw1. simpl in Hlock. unfold set_clock, set_lock in *; simpl in *.
      rewrite Hlock. by destruct w.
    + by apply batch_acquire_Throw in Eacq.
Qed.

Lemma batchCreate_run items w :
  batchCreate items w =
  if maxBatchSize w <? Z.of_nat (length items) then (Throw BatchTooLarge, w)
  else if maxFileSize w <? currentSize w + validatedSize items then (Throw QuotaExceeded, w)
  else
    match try_finally batch_try batch_release
            (mkLocals (rejected w items) (survivors w items) (validatedSize items) ∅, w) with
    | (Return _, s) => (Return (failedKeys (fst s)), snd s)
    | (Throw e, s) => (Throw e, snd s)
    end.
Proof.
  unfold batchCreate, with_locals.
  rewrite (bind_Return (gets maxBatchSize) _ w (maxBatchSize w) w eq_refl). cbv beta.
  destruct (maxBatchSize w <? Z.of_nat (length items)).
  { by rewrite (bind_Throw (when true _) _ w BatchTooLarge w eq_refl). }
  rewrite (bind_Return (when false _) _ w tt w eq_refl). cbv beta.
  rewrite (bind_Return _ _ _ _ _ (batch_validate_exact items _ w)). cbv beta.
  do 3 (erewrite bind_Return; [|reflexivity]; cbv beta).
  cbn [fst snd totalNewSize currentSize maxFileSize failedKeys validItems locks app].
  rewrite !Z.add_0_l.
  destruct (maxFileSize w <? currentSize w + validatedSize items).
  { by erewrite bind_Throw; [|reflexivity]. }
  erewrite bind_Return; [|reflexivity]. cbv beta. rewrite bind_eq.
  by destruct (try_finally batch_try batch_release _) as [[[]|e] [L2 w2]].
Qed.

Lemma survivors_member w items it' :
  it' ∈ survivors w items ↔
  ∃ it, it ∈ items ∧ survives w it = true ∧ it' = (validKey it, it.1.2, it.2).
Proof.
  unfold survivors. rewrite list_elem_of_In, in_map_iff. split.
  - intros (it & <- & Hin%filter_In). exists it. rewrite list_elem_of_In. naive_solver.
  - intros (it & Hin & Hs & ->). exists it. split; [done|].
    apply filter_In. by rewrite <- list_elem_of_In.
Qed.

Lemma survivors_keys w items k :
  k ∈ batch_keys (survivors w items) ↔
  ∃ it, it ∈ items ∧ survives w it = true ∧ validKey it = k.
Proof.
  unfold batch_keys. rewrite list_elem_of_In, in_map_iff. split.
  - intros (it' & <- & Hin%list_elem_of_In%survivors_member).
    destruct Hin as (it & ? & ? & ->). by exists it.
  - intros (it & Hin & Hs & <-). exists (validKey it, it.1.2, it.2). split; [done|].
    apply list_elem_of_In, survivors_member. by exists it.
Qed.

Lemma batchCreate_Return_conditions w items failed :
  fst (batchCreate items w) = Return failed →
  Z.of_nat (length items) ≤ maxBatchSize w ∧
  currentSize w + validatedSize items ≤ maxFileSize w ∧
  NoDup (batch_keys (survivors w items)) ∧
  (∀ k, k ∈ batch_keys (survivors w items) → k ∉ lock w).
Proof.
  rewrite batchCreate_run.
  destruct (Z.ltb_spec (maxBatchSize w) (Z.of_nat (length items))); [done|].
  destruct (Z.ltb_spec (maxFileSize w) (currentSize w + validatedSize items)); [done|].
  intros Hr. split_and!; [done..| |].
  all: revert Hr; unfold try_finally, batch_try; rewrite bind_eq; unfold gets at 1;
    cbn [fst snd validItems]; rewrite bind_eq.
  all: pose proof (batch_acquire_Return_inv (survivors w items)
                     (mkLocals (rejected w items) (survivors w items)
                        (validatedSize items) ∅) w) as Hinv.
  all: destruct (for_each (survivors w items) batch_acquire _) as [[[]|e] [L1 w1]];
    [intros _; by destruct (Hinv eq_refl) | rewrite batch_release_run; done].
Qed.



(** X11. When [batchCreate] returns, the list it returns holds, in order,
    the keys of the items that failed validation or collided with an
    unexpired entry; every other item is in the index with its value and its
    expiry; every other key of the index is untouched; the store is dirty
    with the one-second save timer running; and the running total, the
    backing file and the lock table are what they were. *)
Theorem batchCreate_result (w w' : World) (items : list Item) (failed : list JSON) :
  batchCreate items w = (Return failed, w') →
  failed = rejected w items ∧
  (∀ it, it ∈ items → survives w it = true →
         data w' !! validKey it = Some (mkEntry it.1.2 (computeExpiry (clock w) it.2))) ∧
  (∀ k, (∀ it, it ∈ items → survives w it = true → validKey it ≠ k) →
        data w' !! k = data w !! k) ∧
  isDirty w' = true ∧ saveTimeout w' = Some (clock w + 1000) ∧
  currentSize w' = currentSize w ∧ file w' = file w ∧ lock w' = lock w.
Proof.
  intros E.
  assert (Hok : fst (batchCreate items w) = Return failed) by (by rewrite E).
  apply batchCreate_Return_conditions in Hok as (Hlen & Hq & Hnd & Hfree).
  revert E. rewrite batchCreate_run.
  destruct (Z.ltb_spec (maxBatchSize w) (Z.of_nat (length items))); [lia|].
  destruct (Z.ltb_spec (maxFileSize w) (currentSize w + validatedSize items)); [lia|].
  rewrite batch_section_ok by done. cbn [fst snd failedKeys validItems].
  intros [= <- <-]. simpl. split_and!; try done.
  - intros it Hin Hs.
    apply (batch_inserted_member (clock w) (survivors w items) (data w)
             (validKey it, it.1.2, it.2) Hnd).
    apply survivors_member. by exists it.
  - intros k Hk. apply batch_inserted_other. rewrite survivors_keys.
    intros (it & Hin & Hs & Heq). by apply (Hk it).
Qed.

Lemma batchCreate_result_witness :
  [JString "a"] = rejected storeA [(JString "a", JNumber 2, None); (JString "b", JNumber 3, None)].
Proof.
  apply (batchCreate_result storeA
           (snd (batchCreate [(JString "a", JNumber 2, None);
                              (JString "b", JNumber 3, None)] storeA))
           [(JString "a", JNumber 2, None); (JString "b", JNumber 3, None)]
           [JString "a"]).
  vm_compute. reflexivity.
Defined.

(** X12. [batchCreate] never changes the running total or the backing
    file, whatever its completion; and when it throws, whether for the
    batch size, the quota guard or a lock that stays held, it has inserted
    nothing: the index, the dirty flag and the save timer are untouched. *)
Theorem batchCreate_leaves_total_and_throws_clean (w : World) (items : list Item) :
  currentSize (snd (batchCreate items w)) = currentSize w ∧
  file (snd (batchCreate items w)) = file w ∧
  tmp (snd (batchCreate items w)) = tmp w ∧
  ((∀ failed, fst (batchCreate items w) ≠ Return failed) →
   data (snd (batchCreate items w)) = data w ∧
   isDirty (snd (batchCreate items w)) = isDirty w ∧
   saveTimeout (snd (batchCreate items w)) = saveTimeout w ∧
   lock (snd (batchCreate items w)) = lock w).
Proof.
  rewrite batchCreate_run.
  destruct (maxBatchSize w <? Z.of_nat (length items)); [done|].
  destruct (maxFileSize w <? currentSize w + validatedSize items); [done|].
  destruct (try_finally batch_try batch_release
              (mkLocals (rejected w items) (survivors w items) (validatedSize items) ∅, w))
    as [r [L2 w2]] eqn:E.
  destruct r as [[]|e].
  - assert (Hnd : NoDup (batch_keys (survivors w items)) ∧
                  ∀ k, k ∈ batch_keys (survivors w items) → k ∉ lock w).
    { revert E. unfold try_finally, batch_try. rewrite bind_eq. unfold gets at 1.
      cbn [fst snd validItems]. rewrite bind_eq.
      pose proof (batch_acquire_Return_inv (survivors w items)
                    (mkLocals (rejected w items) (survivors w items)
                       (validatedSize items) ∅) w) as Hinv.
      destruct (for_each (survivors w items) batch_acquire _) as [[[]|e] [L1 w1]];
        [intros _; by apply Hinv | rewrite batch_release_run; done]. }
    destruct Hnd as [Hnd Hfree]. rewrite batch_section_ok in E by done.
    injection E as <- <-. simpl. split_and!; try done. intros H. by destruct (H (rejected w items)).
  - destruct (λ H, batch_section_fail _ _ _ _ _ H E ltac:(done)) as [Hw2 [k Hk]]; [done|].
    cbn [fst snd]. rewrite Hw2. simpl. split_and!; try done.
Qed.

Lemma batchCreate_leaves_total_and_throws_clean_witness :
  data (snd (batchCreate [(JString "a", JNumber 1, None); (JString "a", JNumber 2, None)] store0))
    = data store0 ∧
  isDirty (snd (batchCreate [(JString "a", JNumber 1, None); (JString "a", JNumber 2, None)] store0))
    = isDirty store0 ∧
  saveTimeout (snd (batchCreate [(JString "a", JNumber 1, None); (JString "a", JNumber 2, None)] store0))
    = saveTimeout store0 ∧
  lock (snd (batchCreate [(JString "a", JNumber 1, None); (JString "a", JNumber 2, None)] store0))
    = lock store0.
Proof.
  apply (proj2 (proj2 (proj2 (batchCreate_leaves_total_and_throws_clean store0
           [(JString "a", JNumber 1, None); (JString "a", JNumber 2, None)])))).
  intros failed. vm_compute. discriminate.
Defined.

(** ** compact *)

Lemma compact_sweep_exact w :
  compact_sweep w = (Return tt, set_data (swept (clock w) (map_to_list (data w)) (data w)) w).
Proof.
  unfold compact_sweep. rewrite bind_eq. unfold gets at 1. rewrite bind_eq. unfold gets at 1.
  cbv beta iota.
  assert (H : ∀ l w0, for_each l
                (fun p => when (isExpired (clock w) (snd p)) (modify (data_delete (fst p)))) w0
              = (Return tt, set_data (swept (clock w) l (data w0)) w0)).
  { induction l as [|p l IH]; intros w0; simpl.
    - unfold ret. by destruct w0.
    - rewrite bind_eq. destruct (isExpired (clock w) p.2); simpl.
      + unfold modify. by rewrite IH.
      + unfold ret. by rewrite IH. }
  apply H.
Qed.

Lemma swept_lookup now l d k item :
  swept now l d !! k = Some item ↔
  d !! k = Some item ∧ ∀ item', (k, item') ∈ l → isExpired now item' = false.
Proof.
  revert d. induction l as [|[k0 e0] l IH]; intros d; simpl.
  - split; [|by intros [? _]]. intros H. split; [done|]. intros item' Hin.
    by apply elem_of_nil in Hin.
  - rewrite IH. destruct (isExpired now e0) eqn:He.
    + rewrite lookup_delete_Some. split.
      * intros [[Hne Hd] Hall]. split; [done|]. intros item' [[= -> ->]|Hin]%elem_of_cons; [done|].
        by apply Hall.
      * intros [Hd Hall]. split_and!; [|done|].
        -- intros ->. specialize (Hall e0 ltac:(apply elem_of_cons; by left)). congruence.
        -- intros item' Hin. apply Hall, elem_of_cons. by right.
    + split.
      * intros [Hd Hall]. split; [done|]. intros item' [[= -> ->]|Hin]%elem_of_cons; [done|].
        by apply Hall.
      * intros [Hd Hall]. split; [done|]. intros item' Hin. apply Hall, elem_of_cons. by right.
Qed.

Lemma swept_index_lookup now (d : gmap string Entry) k item :
  swept now (map_to_list d) d !! k = Some item ↔
  d !! k = Some item ∧ isExpired now item = false.
Proof.
  rewrite swept_lookup. split.
  - intros [Hd Hall]. split; [done|]. by apply Hall, elem_of_map_to_list.
  - intros [Hd He]. split; [done|]. intros item' Hin%elem_of_map_to_list. congruence.
Qed.

(** X13. With the lock "compact" free, [compact] removes from the index
    exactly the entries with a non-zero expiry at or before now, whether or
    not the save that follows succeeds, and releases its lock.  It returns
    exactly when that save goes through: the sum recomputed over what is left
    is within the maximum and neither the write nor the rename fails; the
    running total is then that sum, the store is clean and the file holds
    what is left less the entry under the key [__proto__], if there is one,
    which [saveData] never writes. *)
Theorem compact_outcome (w : World) :
  "compact"%string ∉ lock w →
  (∀ k item, data (snd (compact w)) !! k = Some item ↔
             data w !! k = Some item ∧ isExpired (clock w) item = false) ∧
  lock (snd (compact w)) = lock w ∧
  (fst (compact w) = Return tt ↔
   totalSize (data (snd (compact w))) ≤ maxFileSize w ∧
   writeFault w = None ∧ renameFault w = None) ∧
  (fst (compact w) = Return tt →
   currentSize (snd (compact w)) = totalSize (data (snd (compact w))) ∧
   isDirty (snd (compact w)) = false ∧
   file (snd (compact w))
     = Some (Document (base.delete "__proto__"%string (data (snd (compact w)))))).
Proof.
  intros Hl. unfold compact. rewrite critical_section_free by done.
  rewrite bind_eq, compact_sweep_exact. cbn [fst snd].
  change (clock (hold "compact" w)) with (clock w).
  change (data (hold "compact" w)) with (data w).
  set (w1 := set_data (swept (clock w) (map_to_list (data w)) (data w)) (hold "compact" w)).
  pose proof (saveData_Return_iff w1) as Hiff.
  destruct (saveData w1) as [r w2] eqn:E.
  apply saveData_inv in E as (Hd & Hlk & _ & _ & _ & Hok & _).
  cbn [fst snd]. change (lock (set_lock ?l _)) with l.
  change (data (set_lock _ ?x)) with (data x).
  change (currentSize (set_lock _ ?x)) with (currentSize x).
  change (isDirty (set_lock _ ?x)) with (isDirty x).
  change (file (set_lock _ ?x)) with (file x).
  rewrite Hd, Hlk. simpl in Hiff. simpl. split_and!.
  - intros k item. apply swept_index_lookup.
  - by apply release_after_acquire.
  - done.
  - intros ->. by destruct (Hok eq_refl) as (_ & ? & ? & ?).
Qed.

Lemma compact_outcome_witness :
  lock (snd (compact storeA_expired)) = lock storeA_expired ∧
  fst (compact storeA_expired) = Return tt ∧
  data (snd (compact storeA_expired)) !! "a"%string = None.
Proof.
  assert (Hl : "compact"%string ∉ lock storeA_expired).
  { apply (bool_decide_unpack _). vm_compute. exact I. }
  split_and!.
  - exact (proj1 (proj2 (compact_outcome storeA_expired Hl))).
  - vm_compute. reflexivity.
  - vm_compute. reflexivity.
Defined.

(** ** loadData and initialize *)

Lemma loadData_Garbled w n :
  file w = Some (Garbled n) → n ≤ maxFileSize w → loadData w = (Throw SyntaxError, w).
Proof.
  intros Hf Hq. unfold loadData, try_catch. rewrite bind_eq. unfold gets at 1.
  rewrite Hf. rewrite bind_eq. unfold gets at 1. rewrite bind_eq. simpl fileSize.
  destruct (Z.ltb_spec (maxFileSize w) n); [lia|]. done.
Qed.

(** X14. [loadData] by the state of the file.  With no file the running
    total is reset and the index is left as it was; a file larger than the
    maximum throws QuotaExceeded and touches nothing; a blank file within the
    maximum empties the store; text that does not parse throws SyntaxError
    and touches nothing; a document within the maximum replaces the index by
    its live entries, whatever the index held before, and the running total
    by the sum of their estimates. *)
Theorem loadData_outcomes (w : World) :
  (file w = None → loadData w = (Return tt, set_currentSize 0 w)) ∧
  (∀ content, file w = Some content → maxFileSize w < fileSize content →
     loadData w = (Throw QuotaExceeded, w)) ∧
  (∀ n, file w = Some (Blank n) → n ≤ maxFileSize w →
     loadData w = (Return tt, set_currentSize 0 (set_data ∅ w))) ∧
  (∀ n, file w = Some (Garbled n) → n ≤ maxFileSize w →
     loadData w = (Throw SyntaxError, w)) ∧
  (∀ fileData, file w = Some (Document fileData) →
     fileSize (Document fileData) ≤ maxFileSize w →
     fst (loadData w) = Return tt ∧
     (∀ k item, data (snd (loadData w)) !! k = Some item ↔
                fileData !! k = Some item ∧ isLive (clock w) item = true) ∧
     currentSize (snd (loadData w)) = totalSize (data (snd (loadData w)))).
Proof.
  split_and!.
  - intros Hf. unfold loadData, try_catch. rewrite bind_eq. unfold gets at 1. by rewrite Hf.
  - intros content Hf Hq. unfold loadData, try_catch. rewrite bind_eq. unfold gets at 1.
    rewrite Hf. rewrite bind_eq. unfold gets at 1. rewrite bind_eq.
    destruct (Z.ltb_spec (maxFileSize w) (fileSize content)); [|lia]. done.
  - intros n Hf Hq. unfold loadData, try_catch. rewrite bind_eq. unfold gets at 1.
    rewrite Hf. rewrite bind_eq. unfold gets at 1. rewrite bind_eq. simpl fileSize.
    destruct (Z.ltb_spec (maxFileSize w) n); [lia|]. done.
  - intros n Hf Hq. by apply (loadData_Garbled w n).
  - intros fileData Hf Hq.
    destruct (loadData_Document w fileData Hf Hq) as (D & -> & HD). by simpl.
Qed.

Lemma loadData_outcomes_witness :
  (data (set_file None storeA) !! "a"%string = Some (mkEntry (JNumber 1) None) ∧
   currentSize (set_file None storeA) = 31 ∧
   loadData (set_file None storeA) = (Return tt, set_currentSize 0 (set_file None storeA))) ∧
  loadData (KVStore_new opts35 (snd (saveData store35)))
    = (Throw QuotaExceeded, KVStore_new opts35 (snd (saveData store35))) ∧
  loadData (set_file (Some (Blank 0)) storeA)
    = (Return tt, set_currentSize 0 (set_data ∅ (set_file (Some (Blank 0)) storeA))) ∧
  loadData (set_file (Some (Garbled 7)) storeA)
    = (Throw SyntaxError, set_file (Some (Garbled 7)) storeA) ∧
  (fst (loadData (advance 5000 storeA)) = Return tt ∧
   currentSize (snd (loadData (advance 5000 storeA)))
     = totalSize (data (snd (loadData (advance 5000 storeA))))).
Proof.
  split; [|split; [|split; [|split]]].
  - split_and!; [vm_compute; reflexivity..|].
    exact (proj1 (loadData_outcomes (set_file None storeA)) eq_refl).
  - refine (proj1 (proj2 (loadData_outcomes (KVStore_new opts35 (snd (saveData store35)))))
              (Document {[ "a"%string := mkEntry (JNumber 1) (Some (T0 + 100000)) ]}) _ _).
    + vm_compute. reflexivity.
    + vm_compute. reflexivity.
  - refine (proj1 (proj2 (proj2 (loadData_outcomes (set_file (Some (Blank 0)) storeA))))
              0 eq_refl _).
    vm_compute. discriminate.
  - refine (proj1 (proj2 (proj2 (proj2
              (loadData_outcomes (set_file (Some (Garbled 7)) storeA)))))
              7 eq_refl _).
    vm_compute. discriminate.
  - destruct (proj2 (proj2 (proj2 (proj2 (loadData_outcomes (advance 5000 storeA)))))
                {[ "a"%string := mkEntry (JNumber 1) None ]}) as (H1 & _ & H3).
    + vm_compute. reflexivity.
    + vm_compute. discriminate.
    + exact (conj H1 H3).
Defined.

Lemma fileSize_empty_document : fileSize (Document ∅) = 2.
Proof. unfold fileSize, documentJSON. by rewrite map_to_list_empty. Qed.

(** X15. [initialize] on a host whose advisory lock is free and that has no
    file yet, when the write goes through and the maximum is at least two
    bytes: it creates the file with the empty object, takes the advisory lock
    and starts from an empty store.  When the lock is held elsewhere it
    throws StoreBusy, after having created a missing file all the same.  A
    failed write of the missing file is thrown as it is and takes no lock;
    and when the load fails on text that does not parse, the advisory lock
    that was just taken stays held. *)
Theorem initialize_outcomes (w : World) :
  (file w = None → fileLocked w = false → writeFault w = None → 2 ≤ maxFileSize w →
     initialize w
       = (Return tt,
          set_currentSize 0
            (set_data ∅
               (set_lockInstance true
                  (set_fileLocked true (set_file (Some (Document ∅)) w)))))) ∧
  (∀ content, file w = Some content → fileLocked w = true →
     initialize w = (Throw StoreBusy, w)) ∧
  (file w = None → fileLocked w = true → writeFault w = None →
     initialize w = (Throw StoreBusy, set_file (Some (Document ∅)) w)) ∧
  (∀ code, file w = None → writeFault w = Some code → code ≠ ELOCKED →
     initialize w = (Throw (FsError code), w)) ∧
  (∀ n, file w = Some (Garbled n) → fileLocked w = false → n ≤ maxFileSize w →
     initialize w = (Throw SyntaxError, set_lockInstance true (set_fileLocked true w))).
Proof.
  split_and!.
  - intros Hf Hl Hw Hq. unfold initialize, try_catch.
    rewrite bind_eq. unfold gets at 1. rewrite bind_eq, Hf.
    unfold fs_writeFile_file. rewrite bind_eq. unfold gets at 1. rewrite Hw.
    unfold modify at 1. rewrite bind_eq. unfold gets at 1. cbn [fileLocked set_file].
    rewrite bind_eq, Hl. unfold when at 1, ret at 1.
    do 2 (rewrite bind_eq; unfold modify at 1).
    destruct (loadData_Document
                (set_lockInstance true (set_fileLocked true (set_file (Some (Document ∅)) w))) ∅)
      as (D & -> & HD).
    + by destruct w.
    + rewrite fileSize_empty_document. by destruct w.
    + assert (D = ∅) as ->.
      { apply map_eq. intros k. rewrite lookup_empty. apply eq_None_not_Some.
        intros [item [Hk _]%HD]. by rewrite lookup_empty in Hk. }
      by rewrite totalSize_empty.
  - intros content Hf Hl. unfold initialize, try_catch.
    rewrite bind_eq. unfold gets at 1. rewrite bind_eq, Hf. unfold ret at 1.
    rewrite bind_eq. unfold gets at 1. rewrite bind_eq, Hl. done.
  - intros Hf Hl Hw. unfold initialize, try_catch.
    rewrite bind_eq. unfold gets at 1. rewrite bind_eq, Hf.
    unfold fs_writeFile_file. rewrite bind_eq. unfold gets at 1. rewrite Hw.
    unfold modify at 1. rewrite bind_eq. unfold gets at 1. cbn [fileLocked set_file].
    rewrite bind_eq, Hl. done.
  - intros code Hf Hw Hc. unfold initialize, try_catch.
    rewrite bind_eq. unfold gets at 1. rewrite bind_eq, Hf.
    unfold fs_writeFile_file. rewrite bind_eq. unfold gets at 1. rewrite Hw.
    unfold throw. by destruct code.
  - intros n Hf Hl Hq. unfold initialize, try_catch.
    rewrite bind_eq. unfold gets at 1. rewrite bind_eq, Hf. unfold ret at 1.
    rewrite bind_eq. unfold gets at 1. rewrite bind_eq, Hl. unfold when at 1, ret at 1.
    do 2 (rewrite bind_eq; unfold modify at 1).
    rewrite (loadData_Garbled _ n); [done| by destruct w | by destruct w].
Qed.

Lemma initialize_outcomes_witness :
  initialize (KVStore_new (mkOptions None None) (emptyHost T0))
    = (Return tt,
       set_currentSize 0
         (set_data ∅
            (set_lockInstance true
               (set_fileLocked true
                  (set_file (Some (Document ∅))
                     (KVStore_new (mkOptions None None) (emptyHost T0))))))).
Proof.
  apply (proj1 (initialize_outcomes (KVStore_new (mkOptions None None) (emptyHost T0))));
    [reflexivity | reflexivity | reflexivity | vm_compute; discriminate].
Defined.

(** ** Saves outside an operation: the timer and cleanup *)

Lemma saveData_frame w :
  console (snd (saveData w)) = console w ∧
  saveTimeout (snd (saveData w)) = saveTimeout w ∧
  lockInstance (snd (saveData w)) = lockInstance w ∧
  fileLocked (snd (saveData w)) = fileLocked w.
Proof.
  unfold saveData, bind. rewrite saveData_prepare_run.
  destruct (Z.ltb_spec (maxFileSize w) (totalSize (data w))); [done|].
  unfold saveData_commit, fs_writeFile_tmp, fs_rename_tmp, fs_unlink_tmp. run.
  destruct (writeFault w); simpl; [done|].
  destruct (renameFault w); simpl; [|done].
  by destruct (unlinkFault w).
Qed.

Lemma saveData_saveTimeout t w :
  saveData (set_saveTimeout t w) = (fst (saveData w), set_saveTimeout t (snd (saveData w))).
Proof.
  unfold saveData, bind. rewrite !saveData_prepare_run.
  change (maxFileSize (set_saveTimeout t w)) with (maxFileSize w).
  change (data (set_saveTimeout t w)) with (data w).
  destruct (Z.ltb_spec (maxFileSize w) (totalSize (data w))); [done|].
  unfold saveData_commit, fs_writeFile_tmp, fs_rename_tmp, fs_unlink_tmp. run.
  destruct (writeFault w); simpl; [done|].
  destruct (renameFault w); simpl; [|done].
  by destruct (unlinkFault w).
Qed.

Lemma saveTimeout_fires_run w :
  saveTimeout_fires w =
  match fst (saveData w) with
  | Return _ => (Return tt, set_saveTimeout None (snd (saveData w)))
  | Throw e =>
      (Return tt,
       set_console (console (snd (saveData w)) ++ [e])
         (set_saveTimeout None (snd (saveData w))))
  end.
Proof.
  unfold saveTimeout_fires, try_catch. rewrite bind_eq. unfold modify at 1.
  rewrite saveData_saveTimeout. by destruct (saveData w) as [[[]|?] ?].
Qed.

(** X16. The save started by the timer of [scheduleSave] never throws and
    leaves the index, the lock table and the clock alone.  When [saveData]
    succeeds the store is clean, the running total is the recomputed sum and
    the file holds the index less the entry under the key [__proto__], if
    there is one; when it throws, the error goes to the console
    and nowhere else: the store stays dirty, the file and the running total
    are as before, and no timer is pending that would try again. *)
Theorem timer_save_never_throws (w : World) :
  fst (saveTimeout_fires w) = Return tt ∧
  saveTimeout (snd (saveTimeout_fires w)) = None ∧
  data (snd (saveTimeout_fires w)) = data w ∧
  lock (snd (saveTimeout_fires w)) = lock w ∧
  clock (snd (saveTimeout_fires w)) = clock w ∧
  (fst (saveData w) = Return tt →
     isDirty (snd (saveTimeout_fires w)) = false ∧
     currentSize (snd (saveTimeout_fires w)) = totalSize (data w) ∧
     file (snd (saveTimeout_fires w))
       = Some (Document (base.delete "__proto__"%string (data w))) ∧
     console (snd (saveTimeout_fires w)) = console w) ∧
  (∀ error, fst (saveData w) = Throw error →
     console (snd (saveTimeout_fires w)) = console w ++ [error] ∧
     isDirty (snd (saveTimeout_fires w)) = isDirty w ∧
     currentSize (snd (saveTimeout_fires w)) = currentSize w ∧
     file (snd (saveTimeout_fires w)) = file w).
Proof.
  rewrite saveTimeout_fires_run.
  destruct (saveData_frame w) as (Hc & _).
  destruct (saveData w) as [r w1] eqn:E.
  apply saveData_inv in E as (Hd & Hl & Hk & _ & _ & Hok & Hko).
  simpl in Hc. cbn [fst snd].
  destruct r as [[]|e].
  - destruct (Hok eq_refl) as (_ & Hs & Hdirty & Hfile). simpl.
    split_and!; try done.
  - destruct (Hko ltac:(done)) as (Hs & Hdirty & Hfile). simpl.
    split_and!; try done. intros error [= <-]. rewrite Hc. by split_and!.
Qed.

(** X17. [cleanup] never throws.  It cancels the timer, gives up the
    advisory file lock when the store held it and leaves it alone otherwise,
    and keeps the index and the lock table.  A clean store writes nothing; a
    dirty one is saved, and when that save throws the error goes to the
    console, the store stays dirty and the file is left as it was. *)
Theorem cleanup_never_throws (w : World) :
  fst (cleanup w) = Return tt ∧
  saveTimeout (snd (cleanup w)) = None ∧
  lockInstance (snd (cleanup w)) = false ∧
  fileLocked (snd (cleanup w)) = (if lockInstance w then false else fileLocked w) ∧
  data (snd (cleanup w)) = data w ∧
  lock (snd (cleanup w)) = lock w ∧
  (isDirty w = false →
     file (snd (cleanup w)) = file w ∧ console (snd (cleanup w)) = console w ∧
     currentSize (snd (cleanup w)) = currentSize w ∧ isDirty (snd (cleanup w)) = false) ∧
  (isDirty w = true → fst (saveData w) = Return tt →
     isDirty (snd (cleanup w)) = false ∧
     currentSize (snd (cleanup w)) = totalSize (data w) ∧
     file (snd (cleanup w)) = Some (Document (base.delete "__proto__"%string (data w))) ∧
     console (snd (cleanup w)) = console w) ∧
  (∀ error, isDirty w = true → fst (saveData w) = Throw error →
     console (snd (cleanup w)) = console w ++ [error] ∧
     isDirty (snd (cleanup w)) = true ∧
     currentSize (snd (cleanup w)) = currentSize w ∧
     file (snd (cleanup w)) = file w).
Proof.
  destruct (isDirty w) eqn:Hdirty.
  - assert (Hrun : cleanup w =
                   let body :=
                     match fst (saveData w) with
                     | Return _ => set_saveTimeout None (snd (saveData w))
                     | Throw e =>
                         set_console (console (snd (saveData w)) ++ [e])
                           (set_saveTimeout None (snd (saveData w)))
                     end in
                   (Return tt,
                    if lockInstance body
                    then set_lockInstance false (set_fileLocked false body) else body)).
    { unfold cleanup, try_finally, try_catch. rewrite bind_eq. unfold modify at 1.
      rewrite bind_eq. unfold gets at 1.
      change (isDirty (set_saveTimeout None w)) with (isDirty w). rewrite Hdirty.
      unfold when at 1. rewrite saveData_saveTimeout.
      destruct (saveData w) as [[[]|e] w1]; run.
      - by destruct (lockInstance w1).
      - by destruct (lockInstance w1). }
    rewrite Hrun. clear Hrun.
    destruct (saveData_frame w) as (Hc & _ & Hli & Hfl).
    destruct (saveData w) as [r w1] eqn:E.
    apply saveData_inv in E as (Hd & Hl & Hk & _ & _ & Hok & Hko).
    simpl in Hc, Hli, Hfl. cbn [fst snd].
    destruct r as [[]|e].
    + destruct (Hok eq_refl) as (_ & Hs & Hdy & Hfile).
      simpl. rewrite Hli. destruct (lockInstance w); simpl; split_and!; try done.
    + destruct (Hko ltac:(done)) as (Hs & Hdy & Hfile).
      simpl. rewrite Hli. destruct (lockInstance w); simpl; split_and!; try done;
        intros error _ [= <-]; rewrite Hc; split_and!; congruence.
  - unfold cleanup. run. rewrite Hdirty. simpl.
    destruct (lockInstance w) eqn:Hli; simpl; split_and!; try done; intros; split_and!; congruence.
Qed.

Lemma timer_save_never_throws_witness :
  fst (saveTimeout_fires storeA) = Return tt ∧
  saveTimeout (snd (saveTimeout_fires storeA)) = None.
Proof.
  split.
  - exact (proj1 (timer_save_never_throws storeA)).
  - exact (proj1 (proj2 (timer_save_never_throws storeA))).
Defined.

Lemma cleanup_never_throws_witness :
  fst (cleanup storeA) = Return tt ∧ lockInstance (snd (cleanup storeA)) = false.
Proof.
  split.
  - exact (proj1 (cleanup_never_throws storeA)).
  - exact (proj1 (proj2 (proj2 (cleanup_never_throws storeA)))).
Defined.

(** ** The size of an entry and the size of the file *)

Lemma length_append (a b : string) :
  String.length (a +:+ b) = (String.length a + String.length b)%nat.
Proof. induction a as [|c a IH]; simpl; [done|]. by rewrite IH. Qed.

Lemma byteLength_append a b : byteLength (a +:+ b) = byteLength a + byteLength b.
Proof. unfold byteLength. rewrite length_append. lia. Qed.

Lemma byteLength_String c s : byteLength (String c s) = 1 + byteLength s.
Proof. unfold byteLength. simpl String.length. lia. Qed.

Lemma byteLength_nonneg s : 0 ≤ byteLength s.
Proof. unfold byteLength. lia. Qed.

Lemma byteLength_quoteString s : byteLength (quoteString s) = 2 + byteLength (escapeString s).
Proof.
  unfold quoteString. rewrite byteLength_String, byteLength_append, byteLength_String.
  change (byteLength EmptyString) with 0. lia.
Qed.

Lemma escapeChar_length c : 1 ≤ byteLength (escapeChar c) ≤ 6.
Proof.
  unfold escapeChar.
  repeat match goal with |- context [if ?b then _ else _] => destruct b end;
    unfold byteLength; simpl; lia.
Qed.

Lemma escapeString_length s :
  byteLength s ≤ byteLength (escapeString s) ≤ 6 * byteLength s.
Proof.
  induction s as [|c s IH]; simpl; [done|].
  rewrite byteLength_append, byteLength_String.
  pose proof (escapeChar_length c). lia.
Qed.

Ltac count_bytes :=
  repeat first [rewrite byteLength_append | rewrite byteLength_quoteString
               | rewrite byteLength_String];
  change (byteLength EmptyString) with 0;
  change (byteLength (escapeString "value")) with 5;
  change (byteLength (escapeString "expiry")) with 6.

(** One member of the document against the estimate of the same entry: the
    estimate has two braces more and counts the expiry as [null]. *)
Lemma byteLength_entry k item :
  byteLength (quoteString k +:+ ":" +:+ stringify (entryJSON item))
  = estimateEntrySize k (value item) - 2
    + (byteLength (stringify (match expiry item with Some t => JNumber t | None => JNull end)) - 4).
Proof.
  unfold estimateEntrySize, entryJSON. cbn [stringify map joinComma fst snd].
  count_bytes. lia.
Qed.

Lemma estimateEntrySize_formula k v :
  estimateEntrySize k v = 29 + byteLength (escapeString k) + byteLength (stringify v).
Proof.
  unfold estimateEntrySize. cbn [stringify map joinComma fst snd]. count_bytes. lia.
Qed.

Lemma byteLength_joinComma l :
  byteLength (joinComma l)
  = foldr (fun p acc => acc + byteLength p) 0 l + Z.max 0 (Z.of_nat (length l) - 1).
Proof.
  induction l as [|p l IH]; [done|].
  destruct l as [|q l].
  - simpl. lia.
  - change (joinComma (p :: q :: l)) with (p +:+ "," +:+ joinComma (q :: l)).
    rewrite !byteLength_append, IH. change (byteLength ",") with 1.
    simpl foldr. simpl length. lia.
Qed.

Lemma totalSize_foldr d :
  totalSize d
  = foldr (fun p acc => acc + estimateEntrySize (fst p) (value (snd p))) 0 (map_to_list d).
Proof.
  unfold totalSize. rewrite map_fold_foldr.
  induction (map_to_list d) as [|[k e] l IH]; simpl; [done|]. by rewrite IH.
Qed.

Lemma totalSize_delete_le k d : totalSize (base.delete k d) ≤ totalSize d.
Proof.
  destruct (d !! k) as [item|] eqn:E.
  - rewrite (totalSize_delete d k item E). rewrite estimateEntrySize_formula.
    pose proof (byteLength_nonneg (escapeString k)).
    pose proof (byteLength_nonneg (stringify (value item))). lia.
  - by rewrite delete_id.
Qed.

Lemma fileSize_Document_sum (l : list (string * Entry)) :
  Forall (fun p => expiry (snd p) = None) l →
  foldr (fun p acc => acc + byteLength p) 0
    (map (fun p => quoteString (fst p) +:+ ":" +:+ stringify (snd p))
       (map (fun p => (fst p, entryJSON (snd p))) l))
  = foldr (fun p acc => acc + estimateEntrySize (fst p) (value (snd p))) 0 l
    - 2 * Z.of_nat (length l).
Proof.
  induction 1 as [|[k e] l He _ IH]; [done|].
  cbn [map foldr fst snd length]. rewrite IH, byteLength_entry. simpl in He. rewrite He.
  change (byteLength (stringify JNull)) with 4. lia.
Qed.

Lemma fileSize_Document_no_expiry d :
  (∀ k item, d !! k = Some item → expiry item = None) →
  fileSize (Document d)
  = if decide (d = ∅) then 2 else totalSize d - Z.of_nat (size d) + 1.
Proof.
  intros Hx. unfold fileSize, documentJSON. cbn [stringify].
  rewrite !byteLength_append, byteLength_joinComma.
  change (byteLength "{") with 1. change (byteLength "}") with 1.
  rewrite fileSize_Document_sum.
  2:{ apply Forall_forall. intros [k e] Hin%elem_of_map_to_list. by apply (Hx k). }
  rewrite <- totalSize_foldr, !length_map, length_map_to_list.
  destruct (decide (d = ∅)) as [->|Hne].
  - rewrite totalSize_empty, map_size_empty. lia.
  - apply map_size_non_empty_iff in Hne. lia.
Qed.

(** X18. The size charged for an entry is 29 bytes plus the escaped key plus
    the serialized value; the ttl plays no part.  For a key and a value that
    pass validation it lies between 29 plus the key's length and 16605
    bytes. *)
Theorem estimateEntrySize_bounds (k : string) (v : JSON) :
  (String.length k ≤ maxKeyLength)%nat →
  byteLength (stringify v) ≤ maxValueSize →
  estimateEntrySize k v = 29 + byteLength (escapeString k) + byteLength (stringify v) ∧
  29 + byteLength k ≤ estimateEntrySize k v ≤ 16605.
Proof.
  intros Hk Hv. rewrite estimateEntrySize_formula. split; [done|].
  pose proof (escapeString_length k). pose proof (byteLength_nonneg (stringify v)).
  unfold maxValueSize in Hv. unfold maxKeyLength in Hk. unfold byteLength in *. lia.
Qed.

Lemma estimateEntrySize_bounds_witness :
  estimateEntrySize "a" (JNumber 1)
    = 29 + byteLength (escapeString "a") + byteLength (stringify (JNumber 1)) ∧
  29 + byteLength "a" ≤ estimateEntrySize "a" (JNumber 1) ≤ 16605.
Proof.
  apply (estimateEntrySize_bounds "a" (JNumber 1));
    [unfold maxKeyLength; simpl; lia | vm_compute; discriminate].
Defined.

(** X19. The size of the document that [saveData] writes for an index in
    which no entry has an expiry.  The document holds the index less the key
    [__proto__]; it is two bytes long when that is empty, and otherwise the
    sum of the estimates of its entries minus their number plus one.  It is
    never longer than the larger of two bytes and the total that [saveData]
    checked against the maximum. *)
Theorem document_size_without_expiries (w w1 : World) :
  saveData w = (Return tt, w1) →
  (∀ k item, data w !! k = Some item → expiry item = None) →
  ∃ written,
    file w1 = Some (Document written) ∧
    written = base.delete "__proto__"%string (data w) ∧
    fileSize (Document written)
      = (if decide (written = ∅) then 2
         else totalSize written - Z.of_nat (size written) + 1) ∧
    fileSize (Document written) ≤ Z.max 2 (totalSize (data w)).
Proof.
  intros Hsave Hx.
  apply saveData_inv in Hsave as (_ & _ & _ & _ & _ & Hok & _).
  destruct (Hok eq_refl) as (_ & _ & _ & Hf). clear Hok.
  exists (base.delete "__proto__"%string (data w)). split_and!; [done..| |].
  - apply fileSize_Document_no_expiry.
    intros k item [_ H]%lookup_delete_Some. by apply (Hx k).
  - rewrite fileSize_Document_no_expiry.
    2:{ intros k item [_ H]%lookup_delete_Some. by apply (Hx k). }
    pose proof (totalSize_delete_le "__proto__" (data w)).
    destruct (decide (base.delete "__proto__"%string (data w) = ∅))
      as [|Hne%map_size_non_empty_iff]; lia.
Qed.

Lemma document_size_without_expiries_witness :
  (∃ written,
     file (snd (saveData storeA)) = Some (Document written) ∧
     written = base.delete "__proto__"%string (data storeA) ∧
     fileSize (Document written)
       = (if decide (written = ∅) then 2
          else totalSize written - Z.of_nat (size written) + 1) ∧
     fileSize (Document written) ≤ Z.max 2 (totalSize (data storeA))) ∧
  (∃ written,
     file (snd (saveData storeP)) = Some (Document written) ∧
     written = base.delete "__proto__"%string (data storeP) ∧
     fileSize (Document written)
       = (if decide (written = ∅) then 2
          else totalSize written - Z.of_nat (size written) + 1) ∧
     fileSize (Document written) ≤ Z.max 2 (totalSize (data storeP))).
Proof.
  split.
  - apply (document_size_without_expiries storeA (snd (saveData storeA))).
    + vm_compute. reflexivity.
    + apply (bool_decide_unpack
               (map_Forall (fun (_ : string) (item : Entry) => expiry item = None)
                  (data storeA))).
      vm_compute. exact I.
  - apply (document_size_without_expiries storeP (snd (saveData storeP))).
    + vm_compute. reflexivity.
    + apply (bool_decide_unpack
               (map_Forall (fun (_ : string) (item : Entry) => expiry item = None)
                  (data storeP))).
      vm_compute. exact I.
Defined.

(** X20. Round trip without expiries.  After a save that completed on an
    index in which no entry has an expiry, under a maximum of at least two
    bytes, [loadData] of any store that sees the written file under the same
    maximum returns, at any later time, and its index is the saved index less
    the key [__proto__], with the running total equal to the sum of its
    estimates. *)
Theorem save_then_load_without_expiries (w w1 w2 : World) :
  saveData w = (Return tt, w1) →
  (∀ k item, data w !! k = Some item → expiry item = None) →
  2 ≤ maxFileSize w →
  file w2 = file w1 → maxFileSize w2 = maxFileSize w →
  fst (loadData w2) = Return tt ∧
  data (snd (loadData w2)) = base.delete "__proto__"%string (data w) ∧
  currentSize (snd (loadData w2)) = totalSize (base.delete "__proto__"%string (data w)).
Proof.
  intros Hsave Hx Hmax Hfile Hm.
  apply saveData_inv in Hsave as (_ & _ & _ & _ & _ & Hok & _).
  destruct (Hok eq_refl) as (Hq & _ & _ & Hf). clear Hok.
  set (D0 := base.delete "__proto__"%string (data w)) in *.
  assert (Hx0 : ∀ k item, D0 !! k = Some item → expiry item = None).
  { intros k item [_ H]%lookup_delete_Some. by apply (Hx k). }
  assert (Hsize : fileSize (Document D0) ≤ maxFileSize w2).
  { rewrite (fileSize_Document_no_expiry D0 Hx0), Hm.
    destruct (decide (D0 = ∅)) as [|Hne%map_size_non_empty_iff]; [done|].
    pose proof (totalSize_delete_le "__proto__" (data w)). fold D0 in H. lia. }
  destruct (loadData_Document w2 D0) as (D & -> & HD); [congruence|done|].
  cbn [fst snd].
  assert (D = D0) as ->.
  { apply map_eq. intros k. apply option_eq. intros item. rewrite HD.
    split; [by intros [? _]|]. intros H. split; [done|].
    unfold isLive. by rewrite (Hx0 k item H). }
  done.
Qed.

Lemma save_then_load_without_expiries_witness :
  fst (loadData (advance 5000 (snd (saveData storeA)))) = Return tt ∧
  data (snd (loadData (advance 5000 (snd (saveData storeA)))))
    = base.delete "__proto__"%string (data storeA) ∧
  currentSize (snd (loadData (advance 5000 (snd (saveData storeA)))))
    = totalSize (base.delete "__proto__"%string (data storeA)).
Proof.
  apply (save_then_load_without_expiries storeA (snd (saveData storeA))).
  - vm_compute. reflexivity.
  - apply (bool_decide_unpack
             (map_Forall (fun (_ : string) (item : Entry) => expiry item = None) (data storeA))).
    vm_compute. exact I.
  - vm_compute. discriminate.
  - vm_compute. reflexivity.
  - vm_compute. reflexivity.
Defined.

(** ** One key at a time *)

(** X21. [create], [read] and [delete] on one key leave the entry of every
    other key as it was, whatever their completion: rejected input, a lock
    that stays held, a rollback after a failed save, the removal of an
    expired entry. *)
Theorem single_key_operations_frame (w : World) (key v : JSON) (ttl : option Z) (k' : string) :
  key ≠ JString k' →
  data (snd (create key v ttl w)) !! k' = data w !! k' ∧
  data (snd (read key w)) !! k' = data w !! k' ∧
  data (snd (delete key w)) !! k' = data w !! k'.
Proof.
  intros Hne. split_and!.
  - unfold create. rewrite bind_eq.
    destruct (validateKey key w) as [rk wk] eqn:Ek.
    apply validateKey_inv in Ek as [-> [-> | (k & -> & -> & Hlen)]]; [done|].
    rewrite bind_eq. destruct (validateValue v w) as [rv wv] eqn:Ev.
    apply validateValue_inv in Ev as [-> [-> | [-> Hv]]]; [done|].
    cbv zeta.
    destruct (decide (k ∈ lock w)) as [Hin|Hout].
    { by rewrite critical_section_held. }
    rewrite critical_section_free by done. cbn [snd].
    change (data (set_lock ?l ?x)) with (data x).
    assert (k ≠ k') by congruence.
    unfold try_catch. rewrite create_try_run.
    destruct (maxFileSize (hold k w) <? currentSize (hold k w) + estimateEntrySize k v).
    { simpl. by rewrite lookup_delete_ne. }
    destruct (hasLive k (hold k w)).
    { simpl. by rewrite lookup_delete_ne. }
    destruct (awaitedSave _) as [r w2] eqn:E.
    apply awaitedSave_inv in E as (Hd & _). simpl in Hd.
    destruct r as [[]|e]; simpl; rewrite Hd.
    + by rewrite lookup_insert_ne.
    + rewrite lookup_delete_ne by done. by rewrite lookup_insert_ne.
  - unfold read. rewrite bind_eq.
    destruct (validateKey key w) as [rk wk] eqn:Ek.
    apply validateKey_inv in Ek as [-> [-> | (k & -> & -> & Hlen)]]; [done|].
    destruct (decide (k ∈ lock w)) as [Hin|Hout].
    { by rewrite critical_section_held. }
    assert (k ≠ k') by congruence.
    rewrite critical_section_free, read_try_run by done. cbn [snd].
    change (data (set_lock ?l ?x)) with (data x).
    change (data (hold k w)) with (data w).
    destruct (data w !! k) as [item|]; [|done].
    destruct (isExpired _ item); [|done]. simpl. by rewrite lookup_delete_ne.
  - unfold delete. rewrite bind_eq.
    destruct (validateKey key w) as [rk wk] eqn:Ek.
    apply validateKey_inv in Ek as [-> [-> | (k & -> & -> & Hlen)]]; [done|].
    destruct (decide (k ∈ lock w)) as [Hin|Hout].
    { by rewrite critical_section_held. }
    assert (k ≠ k') by congruence.
    rewrite critical_section_free, delete_try_run by done. cbn [snd].
    change (data (set_lock ?l ?x)) with (data x).
    change (data (hold k w)) with (data w).
    destruct (data w !! k) as [item|]; [|done].
    destruct (isExpired _ item); simpl; by rewrite lookup_delete_ne.
Qed.

Lemma single_key_operations_frame_witness :
  data (snd (create (JString "b") (JNumber 2) None storeA)) !! "a"%string
    = data storeA !! "a"%string ∧
  data (snd (read (JString "b") storeA)) !! "a"%string = data storeA !! "a"%string ∧
  data (snd (delete (JString "b") storeA)) !! "a"%string = data storeA !! "a"%string.
Proof.
  apply (single_key_operations_frame storeA (JString "b") (JNumber 2) None "a").
  discriminate.
Defined.

(** ** A create that finds a save in flight *)

(** X22. A [create] that completes after finding a save in flight has
    started no save of its own: its entry is in the index, but the backing
    file holds the document that the save in flight had computed before, the
    running total is the total that save had computed, and the store is
    marked clean with no save in flight any more. *)
Theorem create_during_save_is_not_written
    (w w' : World) (key v : JSON) (ttl : option Z) (pending : FileContent * Z) :
  savePromise w = Some (Writing pending) →
  create key v ttl w = (Return tt, w') →
  ∃ k, key = JString k ∧
       data w' = <[k := mkEntry v (computeExpiry (clock w) ttl)]> (data w) ∧
       file w' = Some (fst pending) ∧
       currentSize w' = snd pending ∧
       isDirty w' = false ∧
       savePromise w' = None.
Proof.
  intros Hp E.
  destruct (create_Return_full _ _ _ _ _ E) as (k & -> & Hk & Hv & Hl & Hq & Hlive).
  rewrite create_reaches_save in E by done.
  match type of E with context [awaitedSave ?x] =>
    destruct (awaitedSave x) as [[[]|e] w2] eqn:Ea; [|done] end.
  injection E as <-.
  apply awaitedSave_inv in Ea as (Hd & _ & _ & _ & _ & Hok & _).
  destruct (Hok eq_refl) as [Hdirty Hs]. simpl in Hs, Hd. rewrite Hp in Hs.
  destruct Hs as [Hcs Hfile]. exists k. simpl. by split_and!.
Qed.

Lemma create_during_save_is_not_written_witness :
  ∃ k, JString "b" = JString k ∧
       data (snd (create (JString "b") (JNumber 2) None storeA_saving))
         = <[k := mkEntry (JNumber 2) (computeExpiry (clock storeA_saving) None)]>
             (data storeA_saving) ∧
       file (snd (create (JString "b") (JNumber 2) None storeA_saving))
         = Some (fst (Document {[ "a"%string := mkEntry (JNumber 1) None ]}, 31)) ∧
       currentSize (snd (create (JString "b") (JNumber 2) None storeA_saving))
         = snd (Document {[ "a"%string := mkEntry (JNumber 1) None ]}, 31) ∧
       isDirty (snd (create (JString "b") (JNumber 2) None storeA_saving)) = false ∧
       savePromise (snd (create (JString "b") (JNumber 2) None storeA_saving)) = None.
Proof.
  apply (create_during_save_is_not_written storeA_saving _ (JString "b") (JNumber 2) None
           (Document {[ "a"%string := mkEntry (JNumber 1) None ]}, 31)).
  - vm_compute. reflexivity.
  - vm_compute. reflexivity.
Defined.
